(** * Defense-vs-position sampler: [scripts/dvp_swar.py]

    A shallow embedding of the script and the properties its specification
    states about it.

    Modelling conventions.
    - A Python [str] is a Rocq [string]; the characters below 128 are ASCII
      and behave as in Python, a byte above 127 is a character that is
      neither a letter, a digit nor white space and that [lower]/[upper]
      leave alone.
    - A Python [int] is a [Z].  The script turns every statistic it reads
      into a [float]; boxscore statistics are integral counts, for which
      float arithmetic is exact, so a statistic is a [Z] here and only the
      per-game average, a quotient, is a [Q].
    - A statement that can raise returns a [result]; [try ... except
      Exception] is a match on it.
    - The three network collaborators are the fields of a [world], each a
      function of its request: a service answers the same request the
      same way throughout a run. *)

From Stdlib Require Import ZArith QArith String Ascii List DecimalString Lia.
From stdpp Require Import base gmap strings list.

Local Open Scope Z_scope.
Local Open Scope string_scope.
Local Open Scope list_scope.
Local Set Warnings "-register-all".

(* ===================================================================== *)
(** * Exceptions and results *)
(* ===================================================================== *)

Inductive exn : Type :=
| TypeError | ValueError | IndexError | KeyError | AttributeError
| ZeroDivisionError | ConnectionError | HTTPError | JSONDecodeError.

Inductive result (A : Type) : Type :=
| Ok (a : A)
| Raise (e : exn).
Arguments Ok {A} a.
Arguments Raise {A} e.

Definition bind {A B : Type} (r : result A) (k : A -> result B) : result B :=
  match r with
  | Ok a => k a
  | Raise e => Raise e
  end.

Notation "x <- r ;; k" := (bind r (fun x => k))
  (at level 100, r at next level, right associativity).

(* ===================================================================== *)
(** * Characters and strings *)
(* ===================================================================== *)

Definition code (c : ascii) : N := N_of_ascii c.

Definition in_range (lo hi : N) (c : ascii) : bool :=
  ((lo <=? code c) && (code c <=? hi))%N.

(** [a-z] *)
Definition is_az (c : ascii) : bool := in_range 97 122 c.

(** [A-Z] *)
Definition is_AZ (c : ascii) : bool := in_range 65 90 c.

(** [\s] and [str.isspace]: tab, line feed, vertical tab, form feed,
    carriage return, the four separators 28..31, and the space. *)
Definition is_space (c : ascii) : bool :=
  in_range 9 13 c || in_range 28 31 c || (code c =? 32)%N.

(** [\w] on ASCII: letters, digits and the underscore. *)
Definition is_word (c : ascii) : bool :=
  is_az c || is_AZ c || in_range 48 57 c || (code c =? 95)%N.

Definition lower_char (c : ascii) : ascii :=
  if is_AZ c then ascii_of_N (code c + 32) else c.

Definition upper_char (c : ascii) : ascii :=
  if is_az c then ascii_of_N (code c - 32) else c.

Definition chars (s : string) : list ascii := list_ascii_of_string s.
Definition text (l : list ascii) : string := string_of_list_ascii l.

(** [s.lower()] and [s.upper()] *)
Definition py_lower (s : string) : string := text (map lower_char (chars s)).
Definition py_upper (s : string) : string := text (map upper_char (chars s)).

(** [s.lstrip()], [s.rstrip()] and [s.strip()] on characters. *)
Fixpoint lstrip (s : list ascii) : list ascii :=
  match s with
  | [] => []
  | c :: t => if is_space c then lstrip t else s
  end.

Fixpoint rstrip (s : list ascii) : list ascii :=
  match s with
  | [] => []
  | c :: t =>
      match rstrip t with
      | [] => if is_space c then [] else [c]
      | t' => c :: t'
      end
  end.

Definition strip (s : list ascii) : list ascii := rstrip (lstrip s).

(** [p] is a prefix of [s]; on success the rest of [s] is returned. *)
Fixpoint drop_prefix (p s : list ascii) : option (list ascii) :=
  match p, s with
  | [], _ => Some s
  | _ :: _, [] => None
  | a :: p', b :: s' => if Ascii.eqb a b then drop_prefix p' s' else None
  end.

(** [s.find(sub) >= 0] *)
Fixpoint contains (sub s : list ascii) : bool :=
  match drop_prefix sub s with
  | Some _ => true
  | None => match s with
            | [] => false
            | _ :: t => contains sub t
            end
  end.

(** [str(n)] for an integer. *)
Definition str_of_Z (n : Z) : string := NilZero.string_of_int (Z.to_int n).

(** [s.zfill(w)]: zeros are put after a leading sign. *)
Definition zfill (w : nat) (s : string) : string :=
  let pad := repeat "0"%char (w - length (chars s)) in
  match chars s with
  | c :: t =>
      if Ascii.eqb c "+" || Ascii.eqb c "-"
      then text (c :: pad ++ t)
      else text (pad ++ c :: t)
  | [] => text pad
  end.

(** The integer literals [int(s)] accepts: white space around an optional
    sign and at least one decimal digit.  (Underscores between digits are
    not modelled.) *)
Definition digit_val (c : ascii) : option Z :=
  if in_range 48 57 c then Some (Z.of_N (code c) - 48) else None.

Fixpoint digits_val (acc : Z) (s : list ascii) : option Z :=
  match s with
  | [] => Some acc
  | c :: t => match digit_val c with
              | Some d => digits_val (10 * acc + d) t
              | None => None
              end
  end.

Definition unsigned_val (s : list ascii) : option Z :=
  match s with
  | [] => None
  | _ :: _ => digits_val 0 s
  end.

Definition int_literal (s : string) : option Z :=
  match strip (chars s) with
  | c :: t =>
      if Ascii.eqb c "-" then Z.opp <$> unsigned_val t
      else if Ascii.eqb c "+" then unsigned_val t
      else unsigned_val (c :: t)
  | [] => None
  end.

(* ===================================================================== *)
(** * Dynamically typed values *)
(* ===================================================================== *)

(** A cell of a boxscore row or header list: [None], an integer or a
    string. *)
Inductive cell : Type :=
| CNone
| CInt (n : Z)
| CStr (s : string).

(** Truth value of a cell, as [or], [not] and [if] see it. *)
Definition truthy (c : cell) : bool :=
  match c with
  | CNone => false
  | CInt n => negb (n =? 0)%Z
  | CStr s => negb (String.eqb s "")
  end.

(** [c or d] *)
Definition py_or (c d : cell) : cell := if truthy c then c else d.

(** [str(c)] *)
Definition py_str (c : cell) : string :=
  match c with
  | CNone => "None"
  | CInt n => str_of_Z n
  | CStr s => s
  end.

(** [int(c)] *)
Definition py_int (c : cell) : result Z :=
  match c with
  | CNone => Raise TypeError
  | CInt n => Ok n
  | CStr s => match int_literal s with
              | Some n => Ok n
              | None => Raise ValueError
              end
  end.

(** [float(c)], on the integral values of this model. *)
Definition py_float (c : cell) : result Z :=
  match c with
  | CNone => Raise TypeError
  | CInt n => Ok n
  | CStr s => match int_literal s with
              | Some n => Ok n
              | None => Raise ValueError
              end
  end.

(** [l[i]]: a negative index counts from the end of the list, an index
    outside the list raises [IndexError]. *)
Definition py_index {A : Type} (l : list A) (i : Z) : result A :=
  let n := Z.of_nat (length l) in
  let j := if (i <? 0)%Z then i + n else i in
  if (j <? 0)%Z || (n <=? j)%Z then Raise IndexError
  else match l !! Z.to_nat j with
       | Some x => Ok x
       | None => Raise IndexError
       end.

(** A JSON document after [r.json()]. A [dict] is its list of items, whose
    keys are distinct. *)
Inductive pyval : Type :=
| PNone
| PBool (b : bool)
| PInt (n : Z)
| PStr (s : string)
| PList (l : list pyval)
| PDict (d : list (string * pyval)).

Definition pv_truthy (v : pyval) : bool :=
  match v with
  | PNone => false
  | PBool b => b
  | PInt n => negb (n =? 0)%Z
  | PStr s => negb (String.eqb s "")
  | PList l => match l with [] => false | _ => true end
  | PDict d => match d with [] => false | _ => true end
  end.

Definition pv_or (v w : pyval) : pyval := if pv_truthy v then v else w.

Fixpoint assoc (k : string) (d : list (string * pyval)) : option pyval :=
  match d with
  | [] => None
  | (k', v) :: d' => if String.eqb k k' then Some v else assoc k d'
  end.

(** [v.get(k)]: only a [dict] has the method. *)
Definition pv_get (v : pyval) (k : string) : result pyval :=
  match v with
  | PDict d => Ok (default PNone (assoc k d))
  | _ => Raise AttributeError
  end.

(** The values [for p in v] runs through. *)
Definition pv_iter (v : pyval) : result (list pyval) :=
  match v with
  | PList l => Ok l
  | PStr s => Ok (map (fun c => PStr (String c EmptyString)) (chars s))
  | PDict d => Ok (map (fun kv => PStr (fst kv)) d)
  | _ => Raise TypeError
  end.

(* ===================================================================== *)
(** * Static tables (lines 13-23) *)
(* ===================================================================== *)

Definition ABBR_TO_TEAM_ID_items : list (string * Z) :=
  [ ("ATL", 1610612737); ("BOS", 1610612738); ("BKN", 1610612751);
    ("CHA", 1610612766); ("CHI", 1610612741); ("CLE", 1610612739);
    ("DAL", 1610612742); ("DEN", 1610612743); ("DET", 1610612765);
    ("GSW", 1610612744); ("HOU", 1610612745); ("IND", 1610612754);
    ("LAC", 1610612746); ("LAL", 1610612747); ("MEM", 1610612763);
    ("MIA", 1610612748); ("MIL", 1610612749); ("MIN", 1610612750);
    ("NOP", 1610612740); ("NYK", 1610612752); ("OKC", 1610612760);
    ("ORL", 1610612753); ("PHI", 1610612755); ("PHX", 1610612756);
    ("POR", 1610612757); ("SAC", 1610612758); ("SAS", 1610612759);
    ("TOR", 1610612761); ("UTA", 1610612762); ("WAS", 1610612764) ].

Definition ABBR_TO_TEAM_ID : gmap string Z :=
  foldl (fun m kv => <[fst kv := snd kv]> m) ∅ ABBR_TO_TEAM_ID_items.

(** [{v: k for k, v in ABBR_TO_TEAM_ID.items()}] *)
Definition TEAM_ID_TO_ABBR : gmap Z string :=
  foldl (fun m kv => <[snd kv := fst kv]> m) ∅ ABBR_TO_TEAM_ID_items.

Definition BUCKETS_KEYS : list string := ["PG"; "SG"; "SF"; "PF"; "C"].

(* ===================================================================== *)
(** * [norm_name] (lines 27-32) *)
(* ===================================================================== *)

(** [re.sub(r"[^a-z\s]", ' ', s)] *)
Definition blank_other (c : ascii) : ascii :=
  if is_az c || is_space c then c else " "%char.

(** The alternatives of [(jr|sr|ii|iii|iv)], in the order the pattern
    tries them. *)
Definition suffix_alternatives : list (list ascii) :=
  map chars ["jr"; "sr"; "ii"; "iii"; "iv"].

Definition word_at (c : option ascii) : bool :=
  match c with
  | Some c => is_word c
  | None => false
  end.

(** [\b] between two neighbouring positions; [None] is an end of the
    string. *)
Definition boundary (prev next : option ascii) : bool :=
  xorb (word_at prev) (word_at next).

(** The pattern [(jr|sr|ii|iii|iv)\b] tried at the head of [s]: the length
    of the first alternative that matches and is followed by [\b]. *)
Fixpoint match_alternatives (alts : list (list ascii)) (s : list ascii)
  : option nat :=
  match alts with
  | [] => None
  | a :: alts' =>
      match drop_prefix a s with
      | Some rest =>
          if boundary (last a) (head rest) then Some (length a)
          else match_alternatives alts' s
      | None => match_alternatives alts' s
      end
  end.

(** [re.sub(r"\b(jr|sr|ii|iii|iv)\b", ' ', s)], scanning from the left.
    [prev] is the character before the head of [s] and [skip] the number
    of characters of the current match still to be consumed. *)
Fixpoint sub_suffix (prev : option ascii) (skip : nat) (s : list ascii)
  : list ascii :=
  match s with
  | [] => []
  | c :: t =>
      match skip with
      | S k => sub_suffix (Some c) k t
      | O =>
          match (if boundary prev (Some c)
                 then match_alternatives suffix_alternatives s
                 else None) with
          | Some n => " "%char :: sub_suffix (Some c) (Nat.pred n) t
          | None => c :: sub_suffix (Some c) 0 t
          end
      end
  end.

(** [re.sub(r"\s+", ' ', s)]; [in_run] says that the previous character
    was white space, whose run has already been replaced. *)
Fixpoint collapse (in_run : bool) (s : list ascii) : list ascii :=
  match s with
  | [] => []
  | c :: t =>
      if is_space c
      then (if in_run then collapse true t else " "%char :: collapse true t)
      else c :: collapse false t
  end.

Definition norm_chars (s : list ascii) : list ascii :=
  let s1 := map lower_char s in
  let s2 := map blank_other s1 in
  let s3 := sub_suffix None 0 s2 in
  strip (collapse false s3).

(** [norm_name(s)] for a string; [s or ''] is [s] itself then. *)
Definition norm_name (s : string) : string := text (norm_chars (chars s)).

(** [norm_name(v)] for whatever value reaches it: a false value is replaced
    by [''], another value that is not a string has no [lower]. *)
Definition norm_name_val (v : pyval) : result string :=
  match pv_or v (PStr "") with
  | PStr s => Ok (norm_name s)
  | _ => Raise AttributeError
  end.

(** [season_label_from_year] (lines 55-56) *)
Definition season_label_from_year (y : Z) : string :=
  str_of_Z y +:+ "-" +:+ zfill 2 (str_of_Z ((y + 1) mod 100)).

(* ===================================================================== *)
(** * [idx] (lines 80-89) *)
(* ===================================================================== *)

(** [l.index(x)]; [None] stands for the [ValueError]. *)
Fixpoint list_index (x : string) (l : list string) : option nat :=
  match l with
  | [] => None
  | y :: l' => if String.eqb y x then Some O
               else S <$> list_index x l'
  end.

Fixpoint idx_names (lower : list string) (names : list string) : Z :=
  match names with
  | [] => -1
  | n :: names' =>
      match list_index (py_lower n) lower with
      | Some i => Z.of_nat i
      | None => idx_names lower names'
      end
  end.

Definition idx (headers : list cell) (names : list string) : Z :=
  let lower := map (fun h => py_lower (py_str (py_or h (CStr "")))) headers in
  idx_names lower names.

(* ===================================================================== *)
(** * The outside world *)
(* ===================================================================== *)

(** What [requests.get] hands back: the status and what [r.json()] gives,
    which raises when the body is not JSON. *)
Record response (A : Type) : Type := Response {
  status_code : Z;
  json : result A
}.
Arguments Response {A} _ _.
Arguments status_code {A} _.
Arguments json {A} _.

(** One entry of [resultSets]; a key that is absent or [null] reads as
    [CNone] or [None]. *)
Record result_set : Type := ResultSet {
  rs_name : cell;
  rs_headers : option (list cell);
  rs_rowSet : option (list (list cell))
}.

Record boxscore : Type := Boxscore {
  resultSets : option (list result_set)
}.

Record world : Type := World {
  (** [requests.get(url, timeout=10)] of the depth-chart service *)
  depth_chart_get : string -> result (response pyval);
  (** [requests.get(url, headers=NBA_HEADERS, timeout=15)] of stats.nba.com *)
  stats_get : string -> result (response boxscore);
  (** [TeamGameLog(team_id, season, 'Regular Season')], its first data
      frame's [Game_ID] column with [str] applied *)
  team_game_log : Z -> string -> result (list string)
}.

(** The command line after [argparse]. *)
Record args : Type := Args {
  a_team : string;
  a_season : Z;
  a_games : Z;
  a_metric : string;
  a_host : string
}.

(* ===================================================================== *)
(** * [fetch_depth_chart_buckets] (lines 35-52) *)
(* ===================================================================== *)

(** [p if isinstance(p, str) else (p.get('name') if isinstance(p, dict)
    else None)] *)
Definition entry_name (p : pyval) : result pyval :=
  match p with
  | PStr _ => Ok p
  | PDict _ => pv_get p "name"
  | _ => Ok PNone
  end.

(** [for p in arr: ...] *)
Fixpoint add_entries (k : string) (arr : list pyval)
    (mapping : gmap string string) : result (gmap string string) :=
  match arr with
  | [] => Ok mapping
  | p :: arr' =>
      name <- entry_name p ;;
      if pv_truthy name
      then (n <- norm_name_val name ;;
            add_entries k arr' (<[n := k]> mapping))
      else add_entries k arr' mapping
  end.

(** [for k in BUCKETS_KEYS: ...] *)
Fixpoint add_buckets (keys : list string) (dc : pyval)
    (mapping : gmap string string) : result (gmap string string) :=
  match keys with
  | [] => Ok mapping
  | k :: keys' =>
      v <- pv_get dc k ;;
      arr <- pv_iter (pv_or v (PList [])) ;;
      mapping' <- add_entries k arr mapping ;;
      add_buckets keys' dc mapping'
  end.

(** The body of the [try]. *)
Definition depth_chart_try (w : world) (base_url team_abbr : string)
  : result (gmap string string) :=
  r <- depth_chart_get w (base_url +:+ "/api/depth-chart?team=" +:+ team_abbr) ;;
  if negb (status_code r =? 200)%Z then Ok ∅
  else
    js <- json r ;;
    v <- pv_get js "depthChart" ;;
    add_buckets BUCKETS_KEYS (pv_or v (PDict [])) ∅.

Definition fetch_depth_chart_buckets (w : world) (base_url team_abbr : string)
  : gmap string string :=
  match depth_chart_try w base_url team_abbr with
  | Ok mapping => mapping
  | Raise _ => ∅
  end.

(* ===================================================================== *)
(** * [nba_fetch] (lines 59-77) *)
(* ===================================================================== *)

Definition NBA_BASE : string := "https://stats.nba.com/stats".

(** [r.raise_for_status()] *)
Definition raise_for_status {A : Type} (r : response A) : result unit :=
  if (400 <=? status_code r)%Z && (status_code r <? 600)%Z
  then Raise HTTPError else Ok tt.

Definition nba_fetch (w : world) (path_and_query : string) : result boxscore :=
  r <- stats_get w (NBA_BASE +:+ "/" +:+ path_and_query) ;;
  _ <- raise_for_status r ;;
  json r.

(* ===================================================================== *)
(** * [compute_for_season] (lines 109-205) *)
(* ===================================================================== *)

Record columns : Type := Columns {
  iTeamId : Z; iTeamAbbr : Z; iPlayer : Z; iStartPos : Z;
  iPTS : Z; iREB : Z; iAST : Z; iFG3M : Z; iSTL : Z; iBLK : Z
}.

(** Lines 137-146. *)
Definition resolve_columns (headers : list cell) : columns :=
  {| iTeamId := idx headers ["TEAM_ID"];
     iTeamAbbr := idx headers ["TEAM_ABBREVIATION"];
     iPlayer := idx headers ["PLAYER_NAME"];
     iStartPos := idx headers ["START_POSITION"];
     iPTS := idx headers ["PTS"];
     iREB := idx headers ["REB"];
     iAST := idx headers ["AST"];
     iFG3M := idx headers ["FG3M"];
     iSTL := idx headers ["STL"];
     iBLK := idx headers ["BLK"] |}.

(** [{k: 0.0 for k in BUCKETS_KEYS}] *)
Definition zero_buckets : gmap string Z :=
  foldl (fun m k => <[k := 0]> m) ∅ BUCKETS_KEYS.

(** [str(rset.get('name') or '').lower().find('player') >= 0] *)
Definition is_player_set (rset : result_set) : bool :=
  contains (chars "player")
           (chars (py_lower (py_str (py_or (rs_name rset) (CStr ""))))).

(** Lines 125-131: the first set named as a player set, else the first. *)
Definition select_pset (rs : list result_set) : option result_set :=
  match List.find is_player_set rs with
  | Some rset => Some rset
  | None => head rs
  end.

(** [int(r[i])] *)
Definition row_team (r : list cell) (i : Z) : result Z :=
  c <- py_index r i ;; py_int c.

(** [next((r for r in rows if int(r[iTeamId]) != team_id), None)] *)
Fixpoint find_opp_row (i team_id : Z) (rows : list (list cell))
  : result (option (list cell)) :=
  match rows with
  | [] => Ok None
  | r :: rows' =>
      t <- row_team r i ;;
      if negb (t =? team_id)%Z then Ok (Some r)
      else find_opp_row i team_id rows'
  end.

(** [str(r[i] or '')] *)
Definition row_text (r : list cell) (i : Z) : result string :=
  c <- py_index r i ;; Ok (py_str (py_or c (CStr ""))).

(** [float(r[i] or 0)] *)
Definition row_stat (r : list cell) (i : Z) : result Z :=
  c <- py_index r i ;; py_float (py_or c (CInt 0)).

(** Lines 167-173: the column the metric is read from. *)
Definition metric_column (cols : columns) (metric : string) : Z :=
  if String.eqb metric "pts" then iPTS cols
  else if String.eqb metric "reb" then iREB cols
  else if String.eqb metric "ast" then iAST cols
  else if String.eqb metric "fg3m" then iFG3M cols
  else if String.eqb metric "stl" then iSTL cols
  else if String.eqb metric "blk" then iBLK cols
  else iPTS cols.

(** Lines 190-197. *)
Definition heuristic_bucket (start_pos : string) (ast tov reb blk : Z)
  : string :=
  if String.eqb start_pos "G"
  then (if (ast >=? 5)%Z || (tov >=? 4)%Z then "PG" else "SG")
  else if String.eqb start_pos "F"
  then (if (reb >=? 8)%Z || (blk >=? 2)%Z then "PF" else "SF")
  else if String.eqb start_pos "C"
  then "C"
  else (if (reb >=? 7)%Z then "PF" else "C").

(** [key in BUCKETS_KEYS] *)
Definition in_keys (key : string) (keys : list string) : bool :=
  existsb (String.eqb key) keys.

(** [d[key] += val] *)
Definition bucket_add (d : gmap string Z) (key : string) (val : Z)
  : result (gmap string Z) :=
  match d !! key with
  | Some old => Ok (<[key := old + val]> d)
  | None => Raise KeyError
  end.

(** Lines 184-198: the bucket of a row the depth chart does not place. *)
Definition heuristic_of_row (cols : columns) (start_pos : string)
    (r : list cell) : result string :=
  ast <- row_stat r (iAST cols) ;;
  let tov := 0 in
  reb <- row_stat r (iREB cols) ;;
  blk <- row_stat r (iBLK cols) ;;
  Ok (heuristic_bucket start_pos ast tov reb blk).

(** Lines 162-198: the body of the loop over the rows. *)
Definition row_step (metric : string) (cols : columns) (opp_id : Z)
    (depth_map : gmap string string) (game_buckets : gmap string Z)
    (r : list cell) : result (gmap string Z) :=
  t <- row_team r (iTeamId cols) ;;
  if negb (t =? opp_id)%Z then Ok game_buckets
  else
    player_name <- row_text r (iPlayer cols) ;;
    raw_pos <- row_text r (iStartPos cols) ;;
    let start_pos := py_upper raw_pos in
    val <- row_stat r (metric_column cols metric) ;;
    if (val =? 0)%Z then Ok game_buckets
    else
      match depth_map !! norm_name player_name with
      | Some key =>
          if in_keys key BUCKETS_KEYS then bucket_add game_buckets key val
          else (bucket <- heuristic_of_row cols start_pos r ;;
                bucket_add game_buckets bucket val)
      | None =>
          bucket <- heuristic_of_row cols start_pos r ;;
          bucket_add game_buckets bucket val
      end.

Fixpoint rows_loop (metric : string) (cols : columns) (opp_id : Z)
    (depth_map : gmap string string) (rows : list (list cell))
    (game_buckets : gmap string Z) : result (gmap string Z) :=
  match rows with
  | [] => Ok game_buckets
  | r :: rows' =>
      gb <- row_step metric cols opp_id depth_map game_buckets r ;;
      rows_loop metric cols opp_id depth_map rows' gb
  end.

(** Line 153: the table first, the row's own abbreviation otherwise. *)
Definition opponent_abbr (cols : columns) (opp_row : list cell) (opp_id : Z)
  : result string :=
  match TEAM_ID_TO_ABBR !! opp_id with
  | Some abbr =>
      if negb (String.eqb abbr "") then Ok abbr
      else row_text opp_row (iTeamAbbr cols)
  | None => row_text opp_row (iTeamAbbr cols)
  end.

(** Lines 124-198 for one fetched boxscore. [None] is a [continue]: the
    game is left out; [Some game_buckets] goes on to lines 200-202. *)
Definition process_boxscore (w : world) (a : args) (team_id : Z)
    (bs : boxscore) : result (option (gmap string Z)) :=
  let rs := default [] (resultSets bs) in
  let pset := select_pset rs in
  let headers := match pset with
                 | Some p => default [] (rs_headers p)
                 | None => []
                 end in
  let rows := match pset with
              | Some p => default [] (rs_rowSet p)
              | None => []
              end in
  match headers, rows with
  | [], _ => Ok None
  | _, [] => Ok None
  | _ :: _, _ :: _ =>
      let cols := resolve_columns headers in
      found <- find_opp_row (iTeamId cols) team_id rows ;;
      match found with
      | None => Ok None
      | Some [] => Ok None
      | Some opp_row =>
          opp_id <- row_team opp_row (iTeamId cols) ;;
          opp_abbr <- opponent_abbr cols opp_row opp_id ;;
          if String.eqb opp_abbr "" then Ok None
          else
            let depth_map := fetch_depth_chart_buckets w (a_host a) opp_abbr in
            gb <- rows_loop (a_metric a) cols opp_id depth_map rows
                            zero_buckets ;;
            Ok (Some gb)
      end
  end.

(** Lines 200-201: [for k in BUCKETS_KEYS: totals_l[k] += game_buckets[k]] *)
Fixpoint add_game (keys : list string) (totals game_buckets : gmap string Z)
  : result (gmap string Z) :=
  match keys with
  | [] => Ok totals
  | k :: keys' =>
      match game_buckets !! k with
      | Some v => totals' <- bucket_add totals k v ;;
                  add_game keys' totals' game_buckets
      | None => Raise KeyError
      end
  end.

Definition boxscore_path (gid : string) : string :=
  "boxscoretraditionalv2?GameID=" +:+ gid +:+
  "&StartPeriod=0&EndPeriod=0&StartRange=0&EndRange=0&RangeType=0".

(** Lines 118-202: one turn of the loop over the games. *)
Definition game_step (w : world) (a : args) (team_id : Z)
    (st : gmap string Z * Z) (gid : string) : result (gmap string Z * Z) :=
  match nba_fetch w (boxscore_path gid) with
  | Raise _ => Ok st
  | Ok bs =>
      outcome <- process_boxscore w a team_id bs ;;
      match outcome with
      | None => Ok st
      | Some gb =>
          totals' <- add_game BUCKETS_KEYS (fst st) gb ;;
          Ok (totals', snd st + 1)
      end
  end.

Fixpoint games_loop (w : world) (a : args) (team_id : Z)
    (gids : list string) (st : gmap string Z * Z)
  : result (gmap string Z * Z) :=
  match gids with
  | [] => Ok st
  | gid :: gids' =>
      st' <- game_step w a team_id st gid ;;
      games_loop w a team_id gids' st'
  end.

(** [max(1, min(args.games, 50))] *)
Definition clamp_games (games : Z) : Z := Z.max 1 (Z.min games 50).

(** [t / n] *)
Definition py_truediv (t n : Z) : result Q :=
  if (n =? 0)%Z then Raise ZeroDivisionError
  else Ok (inject_Z t / inject_Z n)%Q.

(** Line 204: the dict comprehension of the per-game averages. *)
Fixpoint per_game_of (keys : list string) (totals : gmap string Z)
    (processed : Z) (acc : gmap string Q) : result (gmap string Q) :=
  match keys with
  | [] => Ok acc
  | k :: keys' =>
      v <- (if negb (processed =? 0)%Z
            then match totals !! k with
                 | Some t => py_truediv t processed
                 | None => Raise KeyError
                 end
            else Ok 0%Q) ;;
      per_game_of keys' totals processed (<[k := v]> acc)
  end.

Record season_result : Type := SeasonResult {
  s_label : string;
  processed_l : Z;
  totals_l : gmap string Z;
  per_game_l : gmap string Q
}.

(** Lines 115-205: the season's result from the game identifiers kept. *)
Definition season_of_gids (w : world) (a : args) (team_id : Z)
    (label : string) (gids : list string) : result season_result :=
  st <- games_loop w a team_id gids (zero_buckets, 0) ;;
  per_game <- per_game_of BUCKETS_KEYS (fst st) (snd st) ∅ ;;
  Ok {| s_label := label; processed_l := snd st;
        totals_l := fst st; per_game_l := per_game |}.

(** [list(...)[: max(1, min(args.games, 50))]]: the bound is positive, so
    the slice is a prefix. *)
Definition kept_gids (games : Z) (game_ids : list string) : list string :=
  take (Z.to_nat (clamp_games games)) game_ids.

Definition compute_for_season (w : world) (a : args) (team_id : Z)
    (start_year : Z) : result season_result :=
  let label := season_label_from_year start_year in
  game_ids <- team_game_log w team_id label ;;
  season_of_gids w a team_id label (kept_gids (a_games a) game_ids).

(* ===================================================================== *)
(** * [main] (lines 92-229) *)
(* ===================================================================== *)

(** The JSON object that is printed. *)
Inductive output : Type :=
| Failure (error : string)
| Success (team season metric : string) (sample_games : Z)
          (perGame : gmap string Q) (totals : gmap string Z).

(** [main] returns what it prints together with the start years
    [compute_for_season] was called with, in the order of the calls. *)
Definition main (w : world) (a : args) : list Z * result output :=
  let team := py_upper (a_team a) in
  match ABBR_TO_TEAM_ID !! team with
  | None => ([], Ok (Failure ("Unknown team: " +:+ team)))
  | Some team_id =>
      if (team_id =? 0)%Z
      then ([], Ok (Failure ("Unknown team: " +:+ team)))
      else
        let season_label := season_label_from_year (a_season a) in
        match compute_for_season w a team_id (a_season a) with
        | Raise e => ([a_season a], Raise e)
        | Ok r1 =>
            if (processed_l r1 =? 0)%Z
            then
              match compute_for_season w a team_id (a_season a - 1) with
              | Raise e => ([a_season a; a_season a - 1], Raise e)
              | Ok r2 =>
                  ([a_season a; a_season a - 1],
                   if (processed_l r2 >? 0)%Z
                   then Ok (Success team (s_label r2) (a_metric a)
                              (processed_l r2) (per_game_l r2) (totals_l r2))
                   else Ok (Success team season_label (a_metric a)
                              (processed_l r1) (per_game_l r1) (totals_l r1)))
              end
            else ([a_season a],
                  Ok (Success team season_label (a_metric a)
                        (processed_l r1) (per_game_l r1) (totals_l r1)))
        end
  end.

(* ===================================================================== *)
(** * Vocabulary of the properties *)
(* ===================================================================== *)

(** The keys of a mapping are the five buckets, no more and no fewer. *)
Definition five_keys {V : Type} (m : gmap string V) : Prop :=
  dom m = list_to_set BUCKETS_KEYS.

(** What reading a cell of a row can raise. *)
Definition cell_error (e : exn) : Prop :=
  e = TypeError \/ e = ValueError \/ e = IndexError.

(** The normalised name a depth-chart entry stands for, if it has one. *)
Definition entry_norm (p : pyval) : option string :=
  match entry_name p with
  | Ok name =>
      if pv_truthy name
      then match norm_name_val name with
           | Ok n => Some n
           | Raise _ => None
           end
      else None
  | Raise _ => None
  end.

(** The normalised names a depth chart lists under the bucket [k]. *)
Definition listed (dc : pyval) (k : string) : list string :=
  match pv_get dc k with
  | Ok v => match pv_iter (pv_or v (PList [])) with
            | Ok arr => omap entry_norm arr
            | Raise _ => []
            end
  | Raise _ => []
  end.

(** The sum of a game's five buckets. *)
Definition bucket_sum (m : gmap string Z) : Z :=
  foldr (fun k acc => default 0 (m !! k) + acc) 0 BUCKETS_KEYS.

Definition sum_Z (l : list Z) : Z := foldr Z.add 0 l.

(** The row belongs to the opponent. *)
Definition is_opponent_row (cols : columns) (opp_id : Z) (r : list cell)
  : bool :=
  match row_team r (iTeamId cols) with
  | Ok t => (t =? opp_id)%Z
  | Raise _ => false
  end.

(** The value of the selected metric in the row. *)
Definition row_metric (metric : string) (cols : columns) (r : list cell) : Z :=
  match row_stat r (metric_column cols metric) with
  | Ok v => v
  | Raise _ => 0
  end.

(** The row belongs to the opponent and its metric value is not zero. *)
Definition counted (metric : string) (cols : columns) (opp_id : Z)
    (r : list cell) : bool :=
  is_opponent_row cols opp_id r && negb (row_metric metric cols r =? 0)%Z.

(** The bucket of a row: the one of the roster mapping if it holds the
    normalised name, the heuristic one otherwise. *)
Definition assigned_bucket (cols : columns) (depth_map : gmap string string)
    (r : list cell) : string :=
  let heuristic :=
    match row_text r (iStartPos cols) with
    | Ok raw => match heuristic_of_row cols (py_upper raw) r with
                | Ok bucket => bucket
                | Raise _ => ""
                end
    | Raise _ => ""
    end in
  match row_text r (iPlayer cols) with
  | Ok name =>
      match depth_map !! norm_name name with
      | Some key => if in_keys key BUCKETS_KEYS then key else heuristic
      | None => heuristic
      end
  | Raise _ => heuristic
  end.

(** The words of a text: its maximal runs of characters that are not
    white space, from left to right. *)
Fixpoint words (s : list ascii) : list (list ascii) :=
  match s with
  | [] => []
  | c :: t =>
      if is_space c then words t
      else match t with
           | [] => [[c]]
           | d :: _ =>
               if is_space d then [c] :: words t
               else match words t with
                    | w :: ws => (c :: w) :: ws
                    | [] => [[c]]
                    end
           end
  end.

(** The words joined by single spaces. *)
Fixpoint unwords (ws : list (list ascii)) : list ascii :=
  match ws with
  | [] => []
  | w :: ws' =>
      match ws' with
      | [] => w
      | _ :: _ => w ++ " "%char :: unwords ws'
      end
  end.

(** The word is one of the suffix tokens "jr", "sr", "ii", "iii", "iv". *)
Definition is_suffix_token (w : list ascii) : bool :=
  existsb (String.eqb (text w)) ["jr"; "sr"; "ii"; "iii"; "iv"].

(** [normalize] as the specification words it: lower-case the input, put a
    space for every character that is neither a lower-case letter nor
    white space, drop the words that are suffix tokens, and join what
    remains with single spaces, which leaves no space at either end. *)
Definition normalize_spec (s : string) : string :=
  let lowered := map lower_char (chars s) in
  let blanked := map blank_other lowered in
  let kept := List.filter (fun w => negb (is_suffix_token w)) (words blanked) in
  text (unwords kept).

(** The longest prefix without white space, and what follows it. *)
Fixpoint span_word (s : list ascii) : list ascii * list ascii :=
  match s with
  | [] => ([], [])
  | c :: t =>
      if is_space c then ([], s)
      else (c :: fst (span_word t), snd (span_word t))
  end.

(** The text is empty or begins with white space. *)
Definition at_gap (s : list ascii) : Prop :=
  match s with
  | [] => True
  | c :: _ => is_space c = true
  end.

(** A lower-case letter or white space: what [blank_other] leaves. *)
Definition letter_or_space (c : ascii) : Prop :=
  is_az c = true \/ is_space c = true.

(** The alternatives of a pattern are words: not empty and made of word
    characters. *)
Definition word_lists (alts : list (list ascii)) : Prop :=
  Forall (fun a => a <> [] /\ Forall (fun c => is_word c = true) a) alts.

(** The text is empty or begins with a character that is not a word
    character. *)
Definition at_break (s : list ascii) : Prop := word_at (head s) = false.

(** The header names as [idx] compares them. *)
Definition lowered_headers (headers : list cell) : list string :=
  map (fun h => py_lower (py_str (py_or h (CStr "")))) headers.

(** The per-bucket delta of a game that is processed; [None] for a game
    that is left out. *)
Definition game_delta (w : world) (a : args) (team_id : Z) (gid : string)
  : option (gmap string Z) :=
  match nba_fetch w (boxscore_path gid) with
  | Ok bs => match process_boxscore w a team_id bs with
             | Ok (Some gb) => Some gb
             | _ => None
             end
  | Raise _ => None
  end.

(** The sum of the bucket [k] over the deltas of some games. *)
Definition delta_sum (k : string) (deltas : list (gmap string Z)) : Z :=
  sum_Z (map (fun gb => default 0 (gb !! k)) deltas).

(** The bucket the heuristic gives a row. *)
Definition heuristic_label (cols : columns) (r : list cell) : string :=
  match row_text r (iStartPos cols) with
  | Ok raw => match heuristic_of_row cols (py_upper raw) r with
              | Ok bucket => bucket
              | Raise _ => ""
              end
  | Raise _ => ""
  end.

(** The decimal digit [d] as a character. *)
Definition digit_char (d : Z) : ascii := ascii_of_N (48 + Z.to_N d).

(** The words [norm_name] keeps: the words of the lowered and blanked
    text that are not suffix tokens. *)
Definition kept_words (s : list ascii) : list (list ascii) :=
  List.filter (fun w => negb (is_suffix_token w))
              (words (map blank_other (map lower_char s))).

(** A word of a normalised name: not empty, made of lower-case letters,
    and not a suffix token. *)
Definition name_word (w : list ascii) : Prop :=
  w <> [] /\ Forall (fun c => is_az c = true) w /\ is_suffix_token w = false.

(** Every character of the string is an ASCII character. *)
Definition ascii_text (s : string) : Prop :=
  Forall (fun c => (code c < 128)%N) (chars s).


(* ===================================================================== *)
(** * Sample data *)
(* ===================================================================== *)

Module Sample.

Definition MIL : Z := 1610612749.
Definition BOS : Z := 1610612738.

Definition headers : list cell :=
  map CStr ["TEAM_ID"; "TEAM_ABBREVIATION"; "PLAYER_NAME"; "START_POSITION";
            "PTS"; "REB"; "AST"; "FG3M"; "STL"; "BLK"].

Definition row (team : Z) (abbr name pos : string)
    (pts reb ast fg3m stl blk : Z) : list cell :=
  [CInt team; CStr abbr; CStr name; CStr pos;
   CInt pts; CInt reb; CInt ast; CInt fg3m; CInt stl; CInt blk].

Definition rows : list (list cell) :=
  [ row MIL "MIL" "Giannis Antetokounmpo" "F" 30 10 5 0 1 1;
    row BOS "BOS" "Jayson Tatum" "F" 25 8 4 3 1 0;
    row BOS "BOS" "Jrue Holiday" "G" 12 4 5 2 1 0;
    row BOS "BOS" "Derrick White" "G" 10 4 4 2 1 0;
    row BOS "BOS" "Al Horford" "C" 0 4 4 2 1 0;
    row BOS "BOS" "Sam Hauser" "" 9 7 4 2 1 0 ].

Definition game : boxscore :=
  Boxscore (Some [ResultSet (CStr "PlayerStats") (Some headers) (Some rows)]).

Definition depth_chart : pyval :=
  PDict [("depthChart",
          PDict [("PG", PList [PStr "Jrue Holiday";
                               PDict [("name", PStr "Derrick White Jr.")]]);
                 ("SG", PList [PStr "derrick white"])])].

Definition host : string := "http://localhost:3000".

(** A boxscore whose header list has no [PTS] column. *)
Definition headers_without_pts : list cell :=
  map CStr ["TEAM_ID"; "TEAM_ABBREVIATION"; "PLAYER_NAME"; "START_POSITION";
            "REB"; "AST"; "BLK"].

Definition game_without_pts : boxscore :=
  Boxscore (Some [ResultSet (CStr "PlayerStats") (Some headers_without_pts)
    (Some [ [CInt MIL; CStr "MIL"; CStr "Damian Lillard"; CStr "G";
             CInt 4; CInt 7; CInt 0];
            [CInt BOS; CStr "BOS"; CStr "Jrue Holiday"; CStr "G";
             CInt 4; CInt 5; CInt 3] ])]).

(** A boxscore with a row whose team id is [null]. *)
Definition game_null_team : boxscore :=
  Boxscore (Some [ResultSet (CStr "PlayerStats") (Some headers)
    (Some [ [CNone; CStr "BOS"; CStr "Jrue Holiday"; CStr "G";
             CInt 12; CInt 4; CInt 5; CInt 2; CInt 1; CInt 0] ])]).

(** A boxscore against a team the static table does not know and whose
    rows carry no abbreviation. *)
Definition guest : Z := 15016.

Definition game_unknown_opponent : boxscore :=
  Boxscore (Some [ResultSet (CStr "PlayerStats") (Some headers)
    (Some [ row MIL "MIL" "Damian Lillard" "G" 20 4 7 3 1 0;
            row guest "" "Guest Player" "G" 11 2 5 1 0 0 ])]).

(** The games that can be fetched, by identifier. *)
Definition games : list (string * boxscore) :=
  [ ("g1", game); ("nopts", game_without_pts);
    ("nullteam", game_null_team); ("guest", game_unknown_opponent) ].

Definition serve (url : string) : result (response boxscore) :=
  match List.find (fun g => String.eqb url
                      (NBA_BASE +:+ "/" +:+ boxscore_path (fst g))) games with
  | Some g => Ok (Response 200 (Ok (snd g)))
  | None => Ok (Response 500 (Raise JSONDecodeError))
  end.

(** The depth chart of Boston is served and no other; the game log of a
    season is [log label]. *)
Definition world_of (log : string -> list string) : world :=
  {| depth_chart_get := fun url =>
       if String.eqb url (host +:+ "/api/depth-chart?team=BOS")
       then Ok (Response 200 (Ok depth_chart))
       else Raise ConnectionError;
     stats_get := serve;
     team_game_log := fun _ label => Ok (log label) |}.

(** The 2024-25 season has the game ["g1"] and a game ["g2"] that cannot
    be fetched; the 2025-26 season has no game. *)
Definition w : world :=
  world_of (fun label =>
              if String.eqb label "2024-25" then ["g1"; "g2"] else []).

Definition a : args :=
  {| a_team := "mil"; a_season := 2025; a_games := 20;
     a_metric := "pts"; a_host := host |}.

(** Worlds whose every season has one game. *)
Definition w_without_pts : world := world_of (fun _ => ["nopts"]).
Definition w_null_team : world := world_of (fun _ => ["nullteam"]).
Definition w_unknown_opponent : world := world_of (fun _ => ["guest"]).

End Sample.

(** More sample data. *)
Module Cases.

(** A boxscore in which every row is a row of the target team. *)
Definition game_own_rows : boxscore :=
  Boxscore (Some [ResultSet (CStr "PlayerStats") (Some Sample.headers)
    (Some [ Sample.row Sample.MIL "MIL" "Damian Lillard" "G" 20 4 7 3 1 0;
            Sample.row Sample.MIL "MIL" "Brook Lopez" "C" 11 8 1 1 0 3 ])]).

(** A row of the opponent whose assists cell cannot be read as a number. *)
Definition row_bad_assists : list cell :=
  [CInt Sample.BOS; CStr "BOS"; CStr "Jrue Holiday Jr."; CStr "G";
   CInt 12; CInt 4; CStr "n/a"; CInt 2; CInt 1; CInt 0].

(** A depth chart in which one entry's name is a number. *)
Definition bad_depth_chart : pyval :=
  PDict [("depthChart",
          PDict [("PG", PList [PStr "Jrue Holiday"]);
                 ("SG", PList [PDict [("name", PInt 5)]])])].

Definition w_bad_roster : world :=
  {| depth_chart_get := fun _ => Ok (Response 200 (Ok bad_depth_chart));
     stats_get := Sample.serve;
     team_game_log := fun _ _ => Ok ["g1"] |}.

(** A world whose game log cannot be reached. *)
Definition w_log_down : world :=
  {| depth_chart_get := fun _ => Raise ConnectionError;
     stats_get := Sample.serve;
     team_game_log := fun _ _ => Raise ConnectionError |}.

End Cases.

(* ===================================================================== *)
(** * Properties *)
(* ===================================================================== *)

(** ** Results *)

Lemma bind_Ok {A B : Type} (r : result A) (k : A -> result B) (b : B) :
  bind r k = Ok b <-> exists x, r = Ok x /\ k x = Ok b.
Proof.
  destruct r as [x|e]; simpl; split.
  - intros H. exists x. auto.
  - intros (y & Hy & Hk). congruence.
  - discriminate.
  - intros (y & Hy & _). discriminate.
Qed.

Lemma bind_Raise {A B : Type} (r : result A) (k : A -> result B) (e : exn) :
  bind r k = Raise e <->
  r = Raise e \/ exists x, r = Ok x /\ k x = Raise e.
Proof.
  destruct r as [x|e']; simpl; split.
  - intros H. right. exists x. auto.
  - intros [H|(y & Hy & Hk)]; congruence.
  - intros H. left. congruence.
  - intros [H|(y & Hy & _)]; congruence.
Qed.

(** Splits a hypothesis [bind r k = Ok b] into its two halves. *)
Ltac bind_ok H x Hx :=
  apply bind_Ok in H; destruct H as (x & Hx & H).

(** ** The number of games *)

Lemma clamp_games_range (games : Z) : 1 <= clamp_games games <= 50.
Proof. unfold clamp_games. lia. Qed.

Lemma kept_gids_length (games : Z) (ids : list string) :
  (length (kept_gids games ids) <= 50)%nat.
Proof.
  unfold kept_gids. rewrite length_take.
  pose proof (clamp_games_range games). lia.
Qed.

Lemma game_step_count w a team st gid st' :
  game_step w a team st gid = Ok st' ->
  snd st <= snd st' <= snd st + 1.
Proof.
  unfold game_step. intros H.
  destruct (nba_fetch w (boxscore_path gid)) as [bs|e].
  - bind_ok H o Ho. destruct o as [gb|].
    + bind_ok H t Ht. injection H as <-. simpl. lia.
    + injection H as <-. lia.
  - injection H as <-. lia.
Qed.

Lemma games_loop_count w a team gids : forall st st',
  games_loop w a team gids st = Ok st' ->
  snd st <= snd st' <= snd st + Z.of_nat (length gids).
Proof.
  induction gids as [|gid gids IH]; intros st st' H; simpl in H.
  - injection H as <-. simpl. lia.
  - bind_ok H st1 H1. apply game_step_count in H1. apply IH in H.
    simpl length. lia.
Qed.

Lemma season_of_gids_processed w a team label gids r :
  season_of_gids w a team label gids = Ok r ->
  0 <= processed_l r <= Z.of_nat (length gids).
Proof.
  unfold season_of_gids. intros H.
  bind_ok H st Hst. bind_ok H pg Hpg. injection H as <-. simpl.
  apply games_loop_count in Hst. simpl in Hst. lia.
Qed.

(** C8. The bound on the number of games is [max(1, min(games, 50))]: it
    lies between 1 and 50, it is 1 for an input of 0 (and any input below
    1) and 50 for an input of 500 (and any input above 50), and an input
    in the range is kept.  The games of a season attempt are the first
    that many identifiers of the game log, so at most 50 identifiers are
    kept and at most 50 games are processed. *)
Theorem C8_games_clamped (w : world) (a : args) (team_id year : Z) :
  let n := clamp_games (a_games a) in
  (1 <= n <= 50) /\
  clamp_games 0 = 1 /\ clamp_games 500 = 50 /\
  (a_games a <= 1 -> n = 1) /\
  (50 <= a_games a -> n = 50) /\
  (1 <= a_games a <= 50 -> n = a_games a) /\
  (forall ids,
      team_game_log w team_id (season_label_from_year year) = Ok ids ->
      compute_for_season w a team_id year
      = season_of_gids w a team_id (season_label_from_year year)
          (take (Z.to_nat n) ids) /\
      (length (take (Z.to_nat n) ids) <= 50)%nat) /\
  (forall r,
      compute_for_season w a team_id year = Ok r ->
      0 <= processed_l r <= 50).
Proof.
  intros n. pose proof (clamp_games_range (a_games a)) as Hn.
  repeat split; try (subst n; unfold clamp_games; lia).
  - unfold compute_for_season. rewrite H. reflexivity.
  - apply (kept_gids_length (a_games a) ids).
  - unfold compute_for_season in H. bind_ok H ids Hids.
    apply season_of_gids_processed in H. lia.
  - unfold compute_for_season in H. bind_ok H ids Hids.
    apply season_of_gids_processed in H.
    pose proof (kept_gids_length (a_games a) ids). lia.
Qed.

Lemma C8_games_clamped_witness :
  exists r,
    team_game_log Sample.w Sample.MIL (season_label_from_year 2024)
      = Ok ["g1"; "g2"] /\
    compute_for_season Sample.w Sample.a Sample.MIL 2024 = Ok r /\
    compute_for_season Sample.w Sample.a Sample.MIL 2024
      = season_of_gids Sample.w Sample.a Sample.MIL "2024-25" ["g1"; "g2"] /\
    0 <= processed_l r <= 50.
Proof.
  destruct (compute_for_season Sample.w Sample.a Sample.MIL 2024) as [r|e] eqn:E;
    [|vm_compute in E; discriminate E].
  exists r.
  destruct (C8_games_clamped Sample.w Sample.a Sample.MIL 2024)
    as (_ & _ & _ & _ & _ & _ & Hids & Hr).
  split; [vm_compute; reflexivity|].
  split; [reflexivity|].
  split.
  - rewrite <- E. apply (Hids ["g1"; "g2"]). vm_compute. reflexivity.
  - apply Hr. exact E.
Defined.

(** ** The heuristic bucket *)

Lemma geb_true (x y : Z) : (x >=? y)%Z = true <-> y <= x.
Proof. rewrite Z.geb_leb. apply Z.leb_le. Qed.

Lemma geb_false (x y : Z) : (x >=? y)%Z = false <-> x < y.
Proof. rewrite Z.geb_leb. apply Z.leb_gt. Qed.

Lemma heuristic_bucket_table (label : string) (ast reb blk : Z) :
  let bucket := heuristic_bucket label ast 0 reb blk in
  (label = "G" ->
     (5 <= ast -> bucket = "PG") /\ (ast < 5 -> bucket = "SG")) /\
  (label = "F" ->
     (8 <= reb \/ 2 <= blk -> bucket = "PF") /\
     (reb < 8 /\ blk < 2 -> bucket = "SF")) /\
  (label = "C" -> bucket = "C") /\
  (label <> "G" -> label <> "F" -> label <> "C" ->
     (7 <= reb -> bucket = "PF") /\ (reb < 7 -> bucket = "C")).
Proof.
  unfold heuristic_bucket.
  split; [|split; [|split]].
  - intros ->. simpl. split; intros H.
    + apply geb_true in H. rewrite H. reflexivity.
    + apply geb_false in H. rewrite H. reflexivity.
  - intros ->. simpl. split.
    + intros [Hr|Hb].
      * apply geb_true in Hr. rewrite Hr. reflexivity.
      * apply geb_true in Hb. rewrite Hb, orb_true_r. reflexivity.
    + intros [Hr Hb].
      apply geb_false in Hr, Hb. rewrite Hr, Hb. reflexivity.
  - intros ->. reflexivity.
  - intros HG HF HC.
    apply String.eqb_neq in HG, HF, HC. rewrite HG, HF, HC.
    split; intros Hr.
    + apply geb_true in Hr. rewrite Hr. reflexivity.
    + apply geb_false in Hr. rewrite Hr. reflexivity.
Qed.

(** The heuristic answers with one of the five keys. *)
Lemma heuristic_bucket_in_keys (label : string) (ast tov reb blk : Z) :
  In (heuristic_bucket label ast tov reb blk) BUCKETS_KEYS.
Proof.
  unfold heuristic_bucket, BUCKETS_KEYS.
  repeat match goal with
         | |- context [if ?b then _ else _] => destruct b
         end; simpl; auto 10.
Qed.

(** A row of the opponent that the depth chart does not place, with a
    metric value that is not zero, goes to the heuristic. *)
Lemma row_step_heuristic metric cols opp_id depth_map gb r
    name raw val ast reb blk :
  row_team r (iTeamId cols) = Ok opp_id ->
  row_text r (iPlayer cols) = Ok name ->
  row_text r (iStartPos cols) = Ok raw ->
  row_stat r (metric_column cols metric) = Ok val ->
  val <> 0 ->
  depth_map !! norm_name name = None ->
  row_stat r (iAST cols) = Ok ast ->
  row_stat r (iREB cols) = Ok reb ->
  row_stat r (iBLK cols) = Ok blk ->
  row_step metric cols opp_id depth_map gb r
  = bucket_add gb (heuristic_bucket (py_upper raw) ast 0 reb blk) val.
Proof.
  intros Ht Hn Hp Hv Hv0 Hd Ha Hr Hb.
  unfold row_step. rewrite Ht. simpl.
  rewrite Z.eqb_refl. simpl. rewrite Hn, Hp. simpl. rewrite Hv. simpl.
  apply Z.eqb_neq in Hv0. rewrite Hv0. rewrite Hd.
  unfold heuristic_of_row. rewrite Ha, Hr, Hb. reflexivity.
Qed.

(** C1. A row of the opponent whose normalised player name the roster
    mapping does not hold, and whose metric value is not zero, is added to
    the bucket of the decision table.  The label is the row's
    starting-position text in upper case, as line 165 reads it: "G" gives
    PG when [ast >= 5] and SG otherwise; "F" gives PF when [reb >= 8] or
    [blk >= 2] and SF otherwise; "C" gives C; another label, the empty one
    too, gives PF when [reb >= 7] and C otherwise.  The comparisons are
    inclusive: [ast = 5] is PG and [ast = 4] SG, [reb = 8] is PF, and
    [reb = 7] with [blk = 0] under "F" is SF. *)
Theorem C1_heuristic_decision_table metric cols opp_id depth_map gb r
    name raw val ast reb blk :
  row_team r (iTeamId cols) = Ok opp_id ->
  row_text r (iPlayer cols) = Ok name ->
  row_text r (iStartPos cols) = Ok raw ->
  row_stat r (metric_column cols metric) = Ok val ->
  val <> 0 ->
  depth_map !! norm_name name = None ->
  row_stat r (iAST cols) = Ok ast ->
  row_stat r (iREB cols) = Ok reb ->
  row_stat r (iBLK cols) = Ok blk ->
  exists bucket,
    row_step metric cols opp_id depth_map gb r = bucket_add gb bucket val /\
    let label := py_upper raw in
    (label = "G" ->
       (5 <= ast -> bucket = "PG") /\ (ast < 5 -> bucket = "SG")) /\
    (label = "F" ->
       (8 <= reb \/ 2 <= blk -> bucket = "PF") /\
       (reb < 8 /\ blk < 2 -> bucket = "SF")) /\
    (label = "C" -> bucket = "C") /\
    (label <> "G" -> label <> "F" -> label <> "C" ->
       (7 <= reb -> bucket = "PF") /\ (reb < 7 -> bucket = "C")) /\
    heuristic_bucket "G" 5 0 reb blk = "PG" /\
    heuristic_bucket "G" 4 0 reb blk = "SG" /\
    heuristic_bucket "F" ast 0 8 blk = "PF" /\
    heuristic_bucket "F" ast 0 7 0 = "SF".
Proof.
  intros Ht Hn Hp Hv Hv0 Hd Ha Hr Hb.
  exists (heuristic_bucket (py_upper raw) ast 0 reb blk). split.
  - eapply row_step_heuristic; eassumption.
  - intros label.
    destruct (heuristic_bucket_table label ast reb blk) as (HG & HF & HC & HO).
    split; [exact HG|]. split; [exact HF|]. split; [exact HC|].
    split; [exact HO|].
    repeat split; reflexivity.
Qed.

Lemma C1_heuristic_decision_table_witness :
  let r := Sample.row Sample.BOS "BOS" "Sam Hauser" "" 9 7 4 2 1 0 in
  let cols := resolve_columns Sample.headers in
  row_team r (iTeamId cols) = Ok Sample.BOS /\
  row_text r (iStartPos cols) = Ok "" /\
  row_stat r (iREB cols) = Ok 7 /\
  exists bucket,
    row_step "pts" cols Sample.BOS ∅ zero_buckets r
    = bucket_add zero_buckets bucket 9 /\
    bucket = "PF".
Proof.
  intros r cols.
  split; [reflexivity|]. split; [reflexivity|]. split; [reflexivity|].
  assert (Hv : (9 : Z) <> 0) by discriminate.
  destruct (C1_heuristic_decision_table "pts" cols Sample.BOS ∅ zero_buckets r
              "Sam Hauser" "" 9 4 7 0
              eq_refl eq_refl eq_refl eq_refl Hv (lookup_empty _)
              eq_refl eq_refl eq_refl)
    as (bucket & Hstep & _ & _ & _ & Hother & _).
  exists bucket. split; [exact Hstep|].
  apply Hother; intros E; vm_compute in E; discriminate E.
Defined.

(** ** Maps keyed by the five buckets *)

Lemma in_keys_In (key : string) (keys : list string) :
  in_keys key keys = true <-> In key keys.
Proof.
  unfold in_keys. rewrite existsb_exists. split.
  - intros (x & Hx & E). apply String.eqb_eq in E. subst. exact Hx.
  - intros H. exists key. split; [exact H|apply String.eqb_refl].
Qed.

Lemma five_keys_lookup {V : Type} (m : gmap string V) (k : string) :
  five_keys m -> In k BUCKETS_KEYS -> is_Some (m !! k).
Proof.
  unfold five_keys. intros Hm Hk. apply elem_of_dom. rewrite Hm.
  apply elem_of_list_to_set, list_elem_of_In. exact Hk.
Qed.

Lemma five_keys_only {V : Type} (m : gmap string V) (k : string) :
  five_keys m -> is_Some (m !! k) -> In k BUCKETS_KEYS.
Proof.
  unfold five_keys. intros Hm Hk. apply elem_of_dom in Hk. rewrite Hm in Hk.
  apply elem_of_list_to_set, list_elem_of_In in Hk. exact Hk.
Qed.

Lemma zero_buckets_five_keys : five_keys zero_buckets.
Proof.
  unfold five_keys, zero_buckets, BUCKETS_KEYS. simpl.
  rewrite !dom_insert_L, dom_empty_L. set_solver.
Qed.

Lemma zero_buckets_lookup (k : string) :
  In k BUCKETS_KEYS -> zero_buckets !! k = Some 0.
Proof.
  unfold zero_buckets, BUCKETS_KEYS. simpl.
  intros [<-|[<-|[<-|[<-|[<-|[]]]]]]; vm_compute; reflexivity.
Qed.

Lemma bucket_add_dom d key val d' :
  bucket_add d key val = Ok d' -> dom d' = dom d.
Proof.
  unfold bucket_add. destruct (d !! key) as [old|] eqn:E; [|discriminate].
  intros [= <-]. rewrite dom_insert_L.
  apply subseteq_union_1_L, singleton_subseteq_l, elem_of_dom. eauto.
Qed.

Lemma bucket_add_defined d key val :
  is_Some (d !! key) -> exists d', bucket_add d key val = Ok d'.
Proof. unfold bucket_add. intros [old ->]. eauto. Qed.

Lemma bucket_add_raises d key val e :
  bucket_add d key val = Raise e -> d !! key = None.
Proof. unfold bucket_add. destruct (d !! key); [discriminate|reflexivity]. Qed.

(** ** The exceptions of the row accesses *)

Lemma py_index_raises {A : Type} (l : list A) i e :
  py_index l i = Raise e -> e = IndexError.
Proof.
  unfold py_index.
  destruct (_ || _); [congruence|]. destruct (l !! _); congruence.
Qed.

Lemma py_index_nil {A : Type} (i : Z) :
  py_index (@nil A) i = Raise IndexError.
Proof.
  unfold py_index. simpl length.
  destruct ((_ <? 0)%Z || _) eqn:E; [reflexivity|].
  apply orb_false_iff in E. destruct E as [E1 E2].
  apply Z.ltb_ge in E1. apply Z.leb_gt in E2.
  destruct (i <? 0)%Z; lia.
Qed.

Lemma py_int_raises c e : py_int c = Raise e -> cell_error e.
Proof.
  unfold cell_error. destruct c as [|n|s]; simpl; [| |destruct (int_literal s)];
    intros [= <-]; auto.
Qed.

Lemma py_float_raises c e : py_float c = Raise e -> cell_error e.
Proof.
  unfold cell_error. destruct c as [|n|s]; simpl; [| |destruct (int_literal s)];
    intros [= <-]; auto.
Qed.

Lemma row_team_raises r i e : row_team r i = Raise e -> cell_error e.
Proof.
  unfold row_team. intros H. apply bind_Raise in H.
  destruct H as [H|(c & _ & H)].
  - apply py_index_raises in H. subst. unfold cell_error. auto.
  - eapply py_int_raises, H.
Qed.

Lemma row_team_nil (i : Z) : row_team [] i = Raise IndexError.
Proof. unfold row_team. rewrite py_index_nil. reflexivity. Qed.

Lemma row_text_raises r i e : row_text r i = Raise e -> cell_error e.
Proof.
  unfold row_text. intros H. apply bind_Raise in H.
  destruct H as [H|(c & _ & H)]; [|discriminate].
  apply py_index_raises in H. subst. unfold cell_error. auto.
Qed.

Lemma row_stat_raises r i e : row_stat r i = Raise e -> cell_error e.
Proof.
  unfold row_stat. intros H. apply bind_Raise in H.
  destruct H as [H|(c & _ & H)].
  - apply py_index_raises in H. subst. unfold cell_error. auto.
  - eapply py_float_raises, H.
Qed.

Lemma heuristic_of_row_raises cols pos r e :
  heuristic_of_row cols pos r = Raise e -> cell_error e.
Proof.
  unfold heuristic_of_row. intros H.
  apply bind_Raise in H. destruct H as [H|(ast & _ & H)];
    [eapply row_stat_raises, H|].
  apply bind_Raise in H. destruct H as [H|(reb & _ & H)];
    [eapply row_stat_raises, H|].
  apply bind_Raise in H. destruct H as [H|(blk & _ & H)];
    [eapply row_stat_raises, H|discriminate].
Qed.

Lemma heuristic_of_row_in_keys cols pos r bucket :
  heuristic_of_row cols pos r = Ok bucket -> In bucket BUCKETS_KEYS.
Proof.
  unfold heuristic_of_row. intros H.
  bind_ok H ast Ha. bind_ok H reb Hr. bind_ok H blk Hb.
  injection H as <-. apply heuristic_bucket_in_keys.
Qed.

(** A row leaves the keys of the game's buckets as they are, and raises
    nothing but what reading its cells raises. *)
Lemma row_step_five_keys metric cols opp_id depth_map gb r gb' :
  five_keys gb ->
  row_step metric cols opp_id depth_map gb r = Ok gb' -> five_keys gb'.
Proof.
  unfold row_step, five_keys. intros Hgb H.
  bind_ok H t Ht. destruct (negb _); [injection H as <-; exact Hgb|].
  bind_ok H name Hn. bind_ok H raw Hp. bind_ok H val Hv.
  destruct (val =? 0)%Z; [injection H as <-; exact Hgb|].
  destruct (depth_map !! _) as [key|]; [destruct (in_keys _ _)|].
  - apply bucket_add_dom in H. congruence.
  - bind_ok H b Hb. apply bucket_add_dom in H. congruence.
  - bind_ok H b Hb. apply bucket_add_dom in H. congruence.
Qed.

Lemma row_step_raises metric cols opp_id depth_map gb r e :
  five_keys gb ->
  row_step metric cols opp_id depth_map gb r = Raise e -> cell_error e.
Proof.
  unfold row_step. intros Hgb H.
  apply bind_Raise in H. destruct H as [H|(t & _ & H)];
    [eapply row_team_raises, H|].
  destruct (negb _); [discriminate|].
  apply bind_Raise in H. destruct H as [H|(name & _ & H)];
    [eapply row_text_raises, H|].
  apply bind_Raise in H. destruct H as [H|(raw & _ & H)];
    [eapply row_text_raises, H|].
  apply bind_Raise in H. destruct H as [H|(val & _ & H)];
    [eapply row_stat_raises, H|].
  destruct (val =? 0)%Z; [discriminate|].
  assert (Hheur : forall pos,
             (bucket <- heuristic_of_row cols pos r ;;
              bucket_add gb bucket val) = Raise e -> cell_error e).
  { intros pos H'. apply bind_Raise in H'.
    destruct H' as [H'|(b & Hb & H')]; [eapply heuristic_of_row_raises, H'|].
    apply bucket_add_raises in H'.
    apply heuristic_of_row_in_keys in Hb.
    destruct (five_keys_lookup gb b Hgb Hb) as [x Hx]. congruence. }
  destruct (depth_map !! _) as [key|]; [|eapply Hheur, H].
  destruct (in_keys key BUCKETS_KEYS) eqn:Hk; [|eapply Hheur, H].
  apply bucket_add_raises in H. apply in_keys_In in Hk.
  destruct (five_keys_lookup gb key Hgb Hk) as [x Hx]. congruence.
Qed.

Lemma rows_loop_five_keys metric cols opp_id depth_map rows : forall gb gb',
  five_keys gb ->
  rows_loop metric cols opp_id depth_map rows gb = Ok gb' -> five_keys gb'.
Proof.
  induction rows as [|r rows IH]; intros gb gb' Hgb H; simpl in H.
  - injection H as <-. exact Hgb.
  - bind_ok H gb1 H1. eapply IH; [|exact H].
    eapply row_step_five_keys; eassumption.
Qed.

Lemma rows_loop_raises metric cols opp_id depth_map rows e : forall gb,
  five_keys gb ->
  rows_loop metric cols opp_id depth_map rows gb = Raise e -> cell_error e.
Proof.
  induction rows as [|r rows IH]; intros gb Hgb H; simpl in H; [discriminate|].
  apply bind_Raise in H. destruct H as [H|(gb1 & H1 & H)].
  - eapply row_step_raises; eassumption.
  - eapply IH; [|exact H]. eapply row_step_five_keys; eassumption.
Qed.

Lemma find_opp_row_raises i team rows e :
  find_opp_row i team rows = Raise e -> cell_error e.
Proof.
  induction rows as [|r rows IH]; simpl; [discriminate|]. intros H.
  apply bind_Raise in H. destruct H as [H|(t & _ & H)];
    [eapply row_team_raises, H|].
  destruct (negb _); [discriminate|auto].
Qed.

Lemma opponent_abbr_raises cols opp_row opp_id e :
  opponent_abbr cols opp_row opp_id = Raise e -> cell_error e.
Proof.
  unfold opponent_abbr.
  destruct (TEAM_ID_TO_ABBR !! opp_id) as [abbr|];
    [destruct (negb _); [discriminate|]|]; apply row_text_raises.
Qed.

Lemma process_boxscore_five_keys w a team bs gb :
  process_boxscore w a team bs = Ok (Some gb) -> five_keys gb.
Proof.
  unfold process_boxscore. intros H.
  destruct (match select_pset _ with Some p => default [] (rs_headers p)
                                   | None => [] end) as [|h hs];
    [discriminate|].
  destruct (match select_pset _ with Some p => default [] (rs_rowSet p)
                                   | None => [] end) as [|r0 rows];
    [discriminate|].
  bind_ok H found Hf. destruct found as [[|c opp_row]|]; try discriminate.
  bind_ok H opp_id Ho. bind_ok H abbr Ha.
  destruct (String.eqb abbr ""); [discriminate|].
  bind_ok H gb1 Hgb. injection H as <-.
  eapply rows_loop_five_keys; [apply zero_buckets_five_keys|exact Hgb].
Qed.

Lemma process_boxscore_raises w a team bs e :
  process_boxscore w a team bs = Raise e -> cell_error e.
Proof.
  unfold process_boxscore. intros H.
  destruct (match select_pset _ with Some p => default [] (rs_headers p)
                                   | None => [] end) as [|h hs];
    [discriminate|].
  destruct (match select_pset _ with Some p => default [] (rs_rowSet p)
                                   | None => [] end) as [|r0 rows];
    [discriminate|].
  apply bind_Raise in H. destruct H as [H|(found & _ & H)];
    [eapply find_opp_row_raises, H|].
  destruct found as [[|c opp_row]|]; try discriminate.
  apply bind_Raise in H. destruct H as [H|(opp_id & _ & H)];
    [eapply row_team_raises, H|].
  apply bind_Raise in H. destruct H as [H|(abbr & _ & H)];
    [eapply opponent_abbr_raises, H|].
  destruct (String.eqb abbr ""); [discriminate|].
  apply bind_Raise in H. destruct H as [H|(gb & _ & H)]; [|discriminate].
  eapply rows_loop_raises; [apply zero_buckets_five_keys|exact H].
Qed.

(** ** The season loop *)

Lemma add_game_dom keys gb : forall totals totals',
  add_game keys totals gb = Ok totals' -> dom totals' = dom totals.
Proof.
  induction keys as [|k keys IH]; intros totals totals' H; simpl in H.
  - congruence.
  - destruct (gb !! k) as [v|]; [|discriminate].
    bind_ok H t1 H1. apply bucket_add_dom in H1. apply IH in H. congruence.
Qed.

Lemma add_game_defined keys gb : forall totals,
  (forall k, In k keys -> is_Some (gb !! k)) ->
  (forall k, In k keys -> is_Some (totals !! k)) ->
  exists totals', add_game keys totals gb = Ok totals'.
Proof.
  induction keys as [|k keys IH]; intros totals Hgb Ht; simpl.
  - eauto.
  - destruct (Hgb k) as [v ->]; [left; reflexivity|].
    destruct (bucket_add_defined totals k v) as [t1 H1];
      [apply Ht; left; reflexivity|].
    rewrite H1. simpl. apply IH.
    + intros k' Hk'. apply Hgb. right. exact Hk'.
    + intros k' Hk'. apply elem_of_dom.
      rewrite (bucket_add_dom _ _ _ _ H1). apply elem_of_dom, Ht.
      right. exact Hk'.
Qed.

Lemma add_game_five_keys totals gb :
  five_keys totals -> five_keys gb ->
  exists totals', add_game BUCKETS_KEYS totals gb = Ok totals' /\
                  five_keys totals'.
Proof.
  intros Ht Hgb.
  destruct (add_game_defined BUCKETS_KEYS gb totals) as [totals' H].
  - intros k Hk. apply five_keys_lookup; assumption.
  - intros k Hk. apply five_keys_lookup; assumption.
  - exists totals'. split; [exact H|].
    unfold five_keys. rewrite (add_game_dom _ _ _ _ H). exact Ht.
Qed.

(** A turn of the loop either leaves the state alone or counts one more
    game; it keeps the five keys and raises only what a row raises. *)
Lemma game_step_cases w a team st gid st' :
  game_step w a team st gid = Ok st' ->
  st' = st \/ snd st' = snd st + 1.
Proof.
  unfold game_step. intros H.
  destruct (nba_fetch w (boxscore_path gid)) as [bs|e].
  - bind_ok H o Ho. destruct o as [gb|].
    + bind_ok H t Ht. injection H as <-. right. reflexivity.
    + injection H as <-. left. reflexivity.
  - injection H as <-. left. reflexivity.
Qed.

Lemma game_step_five_keys w a team st gid st' :
  five_keys (fst st) ->
  game_step w a team st gid = Ok st' -> five_keys (fst st').
Proof.
  unfold game_step. intros Hst H.
  destruct (nba_fetch w (boxscore_path gid)) as [bs|e].
  - bind_ok H o Ho. destruct o as [gb|].
    + bind_ok H t Ht. injection H as <-. simpl.
      unfold five_keys. rewrite (add_game_dom _ _ _ _ Ht). exact Hst.
    + injection H as <-. exact Hst.
  - injection H as <-. exact Hst.
Qed.

Lemma game_step_raises w a team st gid e :
  five_keys (fst st) ->
  game_step w a team st gid = Raise e -> cell_error e.
Proof.
  unfold game_step. intros Hst H.
  destruct (nba_fetch w (boxscore_path gid)) as [bs|e']; [|discriminate].
  apply bind_Raise in H. destruct H as [H|(o & Ho & H)].
  - eapply process_boxscore_raises, H.
  - destruct o as [gb|]; [|discriminate].
    apply process_boxscore_five_keys in Ho.
    destruct (add_game_five_keys (fst st) gb Hst Ho) as (t & Ht & _).
    rewrite Ht in H. discriminate.
Qed.

Lemma games_loop_five_keys w a team gids : forall st st',
  five_keys (fst st) ->
  games_loop w a team gids st = Ok st' -> five_keys (fst st').
Proof.
  induction gids as [|gid gids IH]; intros st st' Hst H; simpl in H.
  - injection H as <-. exact Hst.
  - bind_ok H st1 H1. eapply IH; [|exact H].
    eapply game_step_five_keys; eassumption.
Qed.

Lemma games_loop_raises w a team gids e : forall st,
  five_keys (fst st) ->
  games_loop w a team gids st = Raise e -> cell_error e.
Proof.
  induction gids as [|gid gids IH]; intros st Hst H; simpl in H;
    [discriminate|].
  apply bind_Raise in H. destruct H as [H|(st1 & H1 & H)].
  - eapply game_step_raises; eassumption.
  - eapply IH; [|exact H]. eapply game_step_five_keys; eassumption.
Qed.

(** When the count has not moved, nothing has. *)
Lemma games_loop_unchanged w a team gids : forall st st',
  games_loop w a team gids st = Ok st' -> snd st' = snd st -> st' = st.
Proof.
  induction gids as [|gid gids IH]; intros st st' H Hn; simpl in H.
  - congruence.
  - bind_ok H st1 H1.
    pose proof (games_loop_count _ _ _ _ _ _ H) as Hc.
    destruct (game_step_cases _ _ _ _ _ _ H1) as [->|H1'].
    + apply IH; assumption.
    + lia.
Qed.

Lemma games_loop_app w a team gids1 gids2 st :
  games_loop w a team (gids1 ++ gids2) st
  = (st1 <- games_loop w a team gids1 st ;; games_loop w a team gids2 st1).
Proof.
  revert st. induction gids1 as [|gid gids1 IH]; intros st; simpl.
  - reflexivity.
  - destruct (game_step w a team st gid) as [st1|e]; simpl; [apply IH|].
    reflexivity.
Qed.

(** ** The per-game averages *)

Lemma per_game_of_defined keys totals processed : forall acc,
  (forall k, In k keys -> is_Some (totals !! k)) ->
  exists per_game, per_game_of keys totals processed acc = Ok per_game.
Proof.
  induction keys as [|k keys IH]; intros acc Ht; simpl.
  - eauto.
  - assert (Hks : forall k', In k' keys -> is_Some (totals !! k'))
      by (intros k' Hk'; apply Ht; right; exact Hk').
    destruct (processed =? 0)%Z eqn:E; simpl.
    + apply IH, Hks.
    + destruct (Ht k) as [t ->]; [left; reflexivity|].
      unfold py_truediv. rewrite E. simpl. apply IH, Hks.
Qed.

Lemma per_game_of_dom keys totals processed : forall acc per_game,
  per_game_of keys totals processed acc = Ok per_game ->
  dom per_game = dom acc ∪ list_to_set keys.
Proof.
  induction keys as [|k keys IH]; intros acc pg H; simpl in H.
  - injection H as <-. simpl. rewrite union_empty_r_L. reflexivity.
  - bind_ok H v Hv. apply IH in H. rewrite H, dom_insert_L. simpl.
    rewrite (union_comm_L {[k]} (dom acc)), union_assoc_L. reflexivity.
Qed.

Lemma per_game_of_other keys totals processed k : forall acc per_game,
  per_game_of keys totals processed acc = Ok per_game ->
  ~ In k keys -> per_game !! k = acc !! k.
Proof.
  induction keys as [|k0 keys IH]; intros acc pg H Hk; simpl in H.
  - congruence.
  - bind_ok H v Hv. rewrite (IH _ _ H).
    + apply lookup_insert_ne. intros ->. apply Hk. left. reflexivity.
    + intros Hin. apply Hk. right. exact Hin.
Qed.

Lemma per_game_of_zero keys totals k : forall acc per_game,
  per_game_of keys totals 0 acc = Ok per_game ->
  In k keys -> per_game !! k = Some 0%Q.
Proof.
  induction keys as [|k0 keys IH]; intros acc pg H Hk; simpl in H.
  - destruct Hk.
  - destruct (in_dec string_dec k keys) as [Hin|Hout].
    + eapply IH; eassumption.
    + destruct Hk as [->|Hk]; [|contradiction].
      rewrite (per_game_of_other _ _ _ _ _ _ H Hout).
      apply lookup_insert_eq.
Qed.

Lemma per_game_of_quotient keys totals processed k : forall acc per_game,
  processed <> 0 ->
  per_game_of keys totals processed acc = Ok per_game ->
  In k keys ->
  exists t, totals !! k = Some t /\
            per_game !! k = Some (inject_Z t / inject_Z processed)%Q.
Proof.
  induction keys as [|k0 keys IH]; intros acc pg Hn H Hk; simpl in H.
  - destruct Hk.
  - apply Z.eqb_neq in Hn. rewrite Hn in H. simpl in H.
    apply Z.eqb_neq in Hn.
    bind_ok H v Hv.
    destruct (in_dec string_dec k keys) as [Hin|Hout].
    + eapply IH; eassumption.
    + destruct Hk as [->|Hk]; [|contradiction].
      destruct (totals !! k) as [t|]; [|discriminate].
      exists t. split; [reflexivity|].
      rewrite (per_game_of_other _ _ _ _ _ _ H Hout).
      unfold py_truediv in Hv. apply Z.eqb_neq in Hn. rewrite Hn in Hv.
      injection Hv as <-. apply lookup_insert_eq.
Qed.

(** C9. The per-game average of a bucket is its total divided by the
    number of processed games when that number is positive, and zero for
    every bucket when it is zero; computing the averages never fails, so a
    season computation raises [ZeroDivisionError] only if the game-log
    collaborator itself does; and the totals and the averages have
    exactly the five keys PG, SG, SF, PF and C. *)
Theorem C9_per_game_averages (w : world) (a : args) (team_id year : Z) :
  (forall r,
      compute_for_season w a team_id year = Ok r ->
      five_keys (totals_l r) /\ five_keys (per_game_l r) /\
      forall k, In k BUCKETS_KEYS ->
        exists t,
          totals_l r !! k = Some t /\
          (processed_l r > 0 ->
             per_game_l r !! k
             = Some (inject_Z t / inject_Z (processed_l r))%Q) /\
          (processed_l r = 0 -> per_game_l r !! k = Some 0%Q)) /\
  (forall totals processed,
      five_keys totals ->
      exists per_game,
        per_game_of BUCKETS_KEYS totals processed ∅ = Ok per_game) /\
  (compute_for_season w a team_id year = Raise ZeroDivisionError ->
   team_game_log w team_id (season_label_from_year year)
   = Raise ZeroDivisionError).
Proof.
  assert (Hdef : forall totals processed,
             five_keys totals ->
             exists per_game,
               per_game_of BUCKETS_KEYS totals processed ∅ = Ok per_game).
  { intros totals processed Ht. apply per_game_of_defined.
    intros k Hk. apply five_keys_lookup; assumption. }
  split; [|split; [exact Hdef|]].
  - intros r H. unfold compute_for_season in H. bind_ok H ids Hids.
    unfold season_of_gids in H. bind_ok H st Hst. bind_ok H pg Hpg.
    injection H as <-. simpl.
    assert (Hk5 : five_keys (fst st)).
    { eapply games_loop_five_keys; [|exact Hst]. apply zero_buckets_five_keys. }
    split; [exact Hk5|]. split.
    + unfold five_keys. rewrite (per_game_of_dom _ _ _ _ _ Hpg).
      rewrite dom_empty_L, union_empty_l_L. reflexivity.
    + intros k Hk. destruct (five_keys_lookup _ k Hk5 Hk) as [t Ht].
      exists t. split; [exact Ht|]. split.
      * intros Hpos. assert (Hne : snd st <> 0) by lia.
        destruct (per_game_of_quotient _ _ _ k _ _ Hne Hpg Hk)
          as (t' & Ht' & Hq).
        congruence.
      * intros Hz. rewrite Hz in Hpg. eapply per_game_of_zero; eassumption.
  - intros H. unfold compute_for_season in H.
    apply bind_Raise in H. destruct H as [H|(ids & _ & H)]; [exact H|].
    exfalso. unfold season_of_gids in H.
    apply bind_Raise in H. destruct H as [H|(st & Hst & H)].
    + apply games_loop_raises in H; [|apply zero_buckets_five_keys].
      destruct H as [H|[H|H]]; discriminate.
    + apply bind_Raise in H. destruct H as [H|(pg & _ & H)]; [|discriminate].
      destruct (Hdef (fst st) (snd st)) as [pg Hpg]; [|congruence].
      eapply games_loop_five_keys; [|exact Hst]. apply zero_buckets_five_keys.
Qed.

Lemma C9_per_game_averages_witness :
  exists r,
    compute_for_season Sample.w Sample.a Sample.MIL 2024 = Ok r /\
    processed_l r > 0 /\
    five_keys (per_game_l r) /\
    exists t,
      totals_l r !! "PF" = Some t /\
      per_game_l r !! "PF" = Some (inject_Z t / inject_Z (processed_l r))%Q.
Proof.
  destruct (compute_for_season Sample.w Sample.a Sample.MIL 2024)
    as [r|e] eqn:E.
  2: { exfalso. vm_compute in E. discriminate E. }
  assert (Hp : processed_l r > 0).
  { assert (H : match compute_for_season Sample.w Sample.a Sample.MIL 2024 with
                | Ok r => processed_l r
                | Raise _ => 0
                end = 1) by (vm_compute; reflexivity).
    rewrite E in H. lia. }
  exists r. split; [reflexivity|]. split; [exact Hp|].
  destruct (C9_per_game_averages Sample.w Sample.a Sample.MIL 2024)
    as (Hok & _ & _).
  destruct (Hok r E) as (_ & H5 & Hk). split; [exact H5|].
  destruct (Hk "PF") as (t & Ht & Hq & _).
  - simpl. auto.
  - exists t. split; [exact Ht|]. apply Hq. exact Hp.
Defined.

(** ** The season fallback *)

Lemma foldl_insert_lookup (items : list (string * Z)) (k : string) (v : Z) :
  forall m : gmap string Z,
  foldl (fun m kv => <[fst kv := snd kv]> m) m items !! k = Some v ->
  In (k, v) items \/ m !! k = Some v.
Proof.
  induction items as [|[k0 v0] items IH]; intros m H; simpl in H.
  - right. exact H.
  - apply IH in H. destruct H as [H|H]; [left; right; exact H|].
    destruct (decide (k0 = k)) as [->|Hne].
    + rewrite lookup_insert_eq in H. injection H as ->.
      left. left. reflexivity.
    + rewrite lookup_insert_ne in H by exact Hne. right. exact H.
Qed.

Lemma team_ids_nonzero (team : string) (team_id : Z) :
  ABBR_TO_TEAM_ID !! team = Some team_id -> team_id <> 0.
Proof.
  intros H. apply foldl_insert_lookup in H. destruct H as [H|H].
  - assert (Hall : Forall (fun kv => snd kv <> 0) ABBR_TO_TEAM_ID_items)
      by (repeat constructor; discriminate).
    rewrite Forall_forall in Hall.
    apply (Hall (team, team_id)), list_elem_of_In, H.
  - rewrite lookup_empty in H. discriminate.
Qed.

(** The totals of a season without a processed game are all zero. *)
Lemma season_of_gids_zero w a team label gids r :
  season_of_gids w a team label gids = Ok r ->
  processed_l r = 0 ->
  totals_l r = zero_buckets /\
  forall k, In k BUCKETS_KEYS -> per_game_l r !! k = Some 0%Q.
Proof.
  unfold season_of_gids. intros H Hz.
  bind_ok H st Hst. bind_ok H pg Hpg. injection H as <-.
  cbn [processed_l totals_l per_game_l] in *.
  apply games_loop_unchanged in Hst; [|exact Hz]. subst st.
  cbn [fst snd] in Hpg.
  split; [reflexivity|]. intros k Hk. eapply per_game_of_zero; eassumption.
Qed.

Lemma compute_for_season_label w a team year r :
  compute_for_season w a team year = Ok r ->
  s_label r = season_label_from_year year.
Proof.
  unfold compute_for_season, season_of_gids. intros H.
  bind_ok H ids Hids. bind_ok H st Hst. bind_ok H pg Hpg.
  injection H as <-. reflexivity.
Qed.

(** C5, as the code has it.  For a known team, [main] calls
    [compute_for_season] for the requested start year.  It calls it once
    more, for the year before, if and only if the first call processed no
    game.  The second result
    replaces the first (label, count, totals, averages) exactly when it
    processed a game; otherwise the output keeps the first, all-zero
    result under the requested season's label.  Whenever the calls return,
    the run prints a success object; [main] raises only what one of its
    calls raised. *)
Theorem C5_season_fallback (w : world) (a : args) (team_id : Z) :
  ABBR_TO_TEAM_ID !! py_upper (a_team a) = Some team_id ->
  let team := py_upper (a_team a) in
  let year := a_season a in
  let compute := compute_for_season w a team_id in
  (forall r1,
      compute year = Ok r1 -> processed_l r1 <> 0 ->
      main w a = ([year],
                  Ok (Success team (season_label_from_year year) (a_metric a)
                        (processed_l r1) (per_game_l r1) (totals_l r1)))) /\
  (forall r1 r2,
      compute year = Ok r1 -> processed_l r1 = 0 ->
      compute (year - 1) = Ok r2 -> processed_l r2 > 0 ->
      s_label r2 = season_label_from_year (year - 1) /\
      main w a = ([year; year - 1],
                  Ok (Success team (s_label r2) (a_metric a)
                        (processed_l r2) (per_game_l r2) (totals_l r2)))) /\
  (forall r1 r2,
      compute year = Ok r1 -> processed_l r1 = 0 ->
      compute (year - 1) = Ok r2 -> processed_l r2 <= 0 ->
      totals_l r1 = zero_buckets /\
      (forall k, In k BUCKETS_KEYS -> per_game_l r1 !! k = Some 0%Q) /\
      main w a = ([year; year - 1],
                  Ok (Success team (season_label_from_year year) (a_metric a)
                        0 (per_game_l r1) (totals_l r1)))) /\
  (forall e,
      snd (main w a) = Raise e ->
      (compute year = Raise e /\ fst (main w a) = [year]) \/
      (exists r1, compute year = Ok r1 /\ processed_l r1 = 0 /\
                  compute (year - 1) = Raise e /\
                  fst (main w a) = [year; year - 1])).
Proof.
  intros Hteam team year compute.
  pose proof (team_ids_nonzero _ _ Hteam) as Hid.
  apply Z.eqb_neq in Hid.
  subst team year compute. unfold main. rewrite Hteam, Hid.
  set (year := a_season a). set (compute := compute_for_season w a team_id).
  split; [|split; [|split]].
  - intros r1 H1 Hp. rewrite H1. apply Z.eqb_neq in Hp. rewrite Hp.
    reflexivity.
  - intros r1 r2 H1 Hp H2 Hp2. rewrite H1, Hp. simpl. rewrite H2.
    split; [eapply compute_for_season_label, H2|].
    assert (E : (processed_l r2 >? 0)%Z = true) by (apply Z.gtb_lt; lia).
    rewrite E. reflexivity.
  - intros r1 r2 H1 Hp H2 Hp2. rewrite H1, Hp. simpl. rewrite H2.
    assert (E : (processed_l r2 >? 0)%Z = false).
    { destruct (processed_l r2 >? 0)%Z eqn:E'; [|reflexivity].
      apply Z.gtb_lt in E'. lia. }
    rewrite E.
    unfold compute, compute_for_season in H1. bind_ok H1 ids Hids.
    destruct (season_of_gids_zero _ _ _ _ _ _ H1 Hp) as (Ht & Hpg).
    repeat split; assumption || reflexivity.
  - intros e. destruct (compute year) as [r1|e1]; simpl.
    + destruct (processed_l r1 =? 0)%Z eqn:Hp; [|discriminate].
      apply Z.eqb_eq in Hp.
      destruct (compute (year - 1)) as [r2|e2]; simpl.
      * destruct (processed_l r2 >? 0)%Z; discriminate.
      * intros [= ->]. right. exists r1. repeat split; assumption.
    + intros [= ->]. left. split; reflexivity.
Qed.

Lemma C5_season_fallback_witness :
  exists r1 r2,
    ABBR_TO_TEAM_ID !! py_upper (a_team Sample.a) = Some Sample.MIL /\
    compute_for_season Sample.w Sample.a Sample.MIL 2025 = Ok r1 /\
    processed_l r1 = 0 /\
    compute_for_season Sample.w Sample.a Sample.MIL 2024 = Ok r2 /\
    processed_l r2 > 0 /\
    main Sample.w Sample.a
    = ([2025; 2024],
       Ok (Success "MIL" (s_label r2) "pts"
             (processed_l r2) (per_game_l r2) (totals_l r2))).
Proof.
  assert (Hteam : ABBR_TO_TEAM_ID !! py_upper (a_team Sample.a)
                  = Some Sample.MIL) by (vm_compute; reflexivity).
  destruct (compute_for_season Sample.w Sample.a Sample.MIL 2025)
    as [r1|e1] eqn:E1.
  2: { exfalso. vm_compute in E1. discriminate E1. }
  destruct (compute_for_season Sample.w Sample.a Sample.MIL 2024)
    as [r2|e2] eqn:E2.
  2: { exfalso. vm_compute in E2. discriminate E2. }
  assert (H1 : processed_l r1 = 0).
  { assert (H : match compute_for_season Sample.w Sample.a Sample.MIL 2025 with
                | Ok r => processed_l r
                | Raise _ => 1
                end = 0) by (vm_compute; reflexivity).
    rewrite E1 in H. exact H. }
  assert (H2 : processed_l r2 > 0).
  { assert (H : match compute_for_season Sample.w Sample.a Sample.MIL 2024 with
                | Ok r => processed_l r
                | Raise _ => 0
                end = 1) by (vm_compute; reflexivity).
    rewrite E2 in H. lia. }
  exists r1, r2.
  split; [exact Hteam|]. split; [reflexivity|]. split; [exact H1|].
  split; [reflexivity|]. split; [exact H2|].
  destruct (C5_season_fallback Sample.w Sample.a Sample.MIL Hteam)
    as (_ & Hretry & _).
  exact (proj2 (Hretry r1 r2 E1 H1 E2 H2)).
Defined.

(** C5, as stated, fails in its last clause: the calls of
    [compute_for_season] at lines 208 and 212 are not inside a [try], so
    for a known team whose game log raises, [main] ends with that
    exception and prints nothing. *)
Lemma C5_main_raises_when_season_raises :
  ABBR_TO_TEAM_ID !! py_upper (a_team Sample.a) = Some Sample.MIL /\
  compute_for_season Cases.w_log_down Sample.a Sample.MIL 2025
  = Raise ConnectionError /\
  main Cases.w_log_down Sample.a = ([2025], Raise ConnectionError).
Proof. vm_compute. repeat split. Qed.

(** ** Failures of a game *)

Lemma nba_fetch_raises w gid e :
  (stats_get w (NBA_BASE +:+ "/" +:+ boxscore_path gid) = Raise e \/
   exists r, stats_get w (NBA_BASE +:+ "/" +:+ boxscore_path gid) = Ok r /\
             (400 <= status_code r < 600 \/ json r = Raise e)) ->
  exists e', nba_fetch w (boxscore_path gid) = Raise e'.
Proof.
  unfold nba_fetch, raise_for_status. intros [H|(r & H & Hr)]; rewrite H; simpl.
  - eauto.
  - destruct ((400 <=? status_code r)%Z && (status_code r <? 600)%Z) eqn:E;
      simpl; [eauto|].
    destruct Hr as [Hr|Hr]; [|rewrite Hr; eauto].
    apply andb_false_iff in E. destruct E as [E|E];
      [apply Z.leb_gt in E|apply Z.ltb_ge in E]; lia.
Qed.

Lemma game_step_fetch_failure w a team gid e st :
  nba_fetch w (boxscore_path gid) = Raise e ->
  game_step w a team st gid = Ok st.
Proof. unfold game_step. intros ->. reflexivity. Qed.

(** C3, as the code has it.  A failure of the fetch of a game's boxscore
    (the request raises, the status is an error status, or the body is not
    JSON) is caught: the turn of the loop leaves the totals and the count
    of processed games as they were, and the season's result is the one
    the season would have without that game. *)
Theorem C3_fetch_failure_skips_game (w : world) (a : args) (team_id : Z)
    (gid : string) (e : exn) :
  (stats_get w (NBA_BASE +:+ "/" +:+ boxscore_path gid) = Raise e \/
   exists r, stats_get w (NBA_BASE +:+ "/" +:+ boxscore_path gid) = Ok r /\
             (400 <= status_code r < 600 \/ json r = Raise e)) ->
  (forall st, game_step w a team_id st gid = Ok st) /\
  (forall label before after,
      season_of_gids w a team_id label (before ++ gid :: after)
      = season_of_gids w a team_id label (before ++ after)).
Proof.
  intros H. apply nba_fetch_raises in H. destruct H as [e' H].
  split.
  - intros st. eapply game_step_fetch_failure, H.
  - intros label before after. unfold season_of_gids.
    rewrite !games_loop_app. simpl.
    destruct (games_loop w a team_id before (zero_buckets, 0)) as [st|e0];
      [|reflexivity].
    simpl. rewrite (game_step_fetch_failure _ _ _ _ _ st H). reflexivity.
Qed.

Lemma C3_fetch_failure_skips_game_witness :
  stats_get Sample.w (NBA_BASE +:+ "/" +:+ boxscore_path "g2")
  = Ok (Response 500 (Raise JSONDecodeError)) /\
  season_of_gids Sample.w Sample.a Sample.MIL "2024-25" ["g1"; "g2"]
  = season_of_gids Sample.w Sample.a Sample.MIL "2024-25" ["g1"].
Proof.
  split; [reflexivity|].
  refine (proj2 (C3_fetch_failure_skips_game Sample.w Sample.a Sample.MIL
                   "g2" JSONDecodeError _) "2024-25" ["g1"] []).
  right. exists (Response 500 (Raise JSONDecodeError)).
  split; [reflexivity|]. left. simpl. lia.
Defined.

(** C3, as stated, fails: an exception raised while a fetched boxscore is
    read is not caught.  The row of this game has [null] for its team id;
    [int(None)] raises [TypeError], which leaves [compute_for_season] and
    [main]. *)
Lemma C3_row_exception_propagates :
  nba_fetch Sample.w_null_team (boxscore_path "nullteam")
  = Ok Sample.game_null_team /\
  team_game_log Sample.w_null_team Sample.MIL "2025-26" = Ok ["nullteam"] /\
  compute_for_season Sample.w_null_team Sample.a Sample.MIL 2025
  = Raise TypeError /\
  main Sample.w_null_team Sample.a = ([2025], Raise TypeError).
Proof. vm_compute. repeat split. Qed.

(** C10. When the first row of another team than the target has a team id
    that the static table does not hold, and the abbreviation cell of that
    row is empty, the game is left out: the turn of the loop changes
    neither the totals nor the count of processed games. *)
Theorem C10_unknown_opponent_skipped (w : world) (a : args) (team_id : Z)
    (gid : string) (bs : boxscore) (p : result_set)
    (headers : list cell) (rows : list (list cell))
    (opp_row : list cell) (opp_id : Z) (c : cell) :
  nba_fetch w (boxscore_path gid) = Ok bs ->
  select_pset (default [] (resultSets bs)) = Some p ->
  rs_headers p = Some headers -> headers <> [] ->
  rs_rowSet p = Some rows ->
  let cols := resolve_columns headers in
  find_opp_row (iTeamId cols) team_id rows = Ok (Some opp_row) ->
  row_team opp_row (iTeamId cols) = Ok opp_id ->
  TEAM_ID_TO_ABBR !! opp_id = None ->
  py_index opp_row (iTeamAbbr cols) = Ok c ->
  truthy c = false ->
  process_boxscore w a team_id bs = Ok None /\
  (forall st, game_step w a team_id st gid = Ok st) /\
  (forall gids st,
      games_loop w a team_id (gid :: gids) st = games_loop w a team_id gids st).
Proof.
  intros Hf Hp Hh Hne Hr cols Hfind Hteam Htab Hc Hempty.
  assert (Hskip : process_boxscore w a team_id bs = Ok None).
  { destruct headers as [|h hs]; [contradiction|].
    destruct rows as [|r0 rows]; [discriminate|].
    destruct opp_row as [|c0 opp_row];
      [rewrite row_team_nil in Hteam; discriminate|].
    unfold process_boxscore. rewrite Hp. cbv beta iota zeta. rewrite Hh, Hr.
    cbv beta iota zeta delta [default from_option id].
    fold cols. rewrite Hfind. cbv beta iota delta [bind].
    rewrite Hteam. cbv beta iota.
    unfold opponent_abbr, row_text. rewrite Htab, Hc.
    cbv beta iota delta [bind]. unfold py_or. rewrite Hempty.
    reflexivity. }
  assert (Hstep : forall st, game_step w a team_id st gid = Ok st).
  { intros st. unfold game_step. rewrite Hf, Hskip. reflexivity. }
  split; [exact Hskip|]. split; [exact Hstep|].
  intros gids st. simpl. rewrite Hstep. reflexivity.
Qed.

Lemma C10_unknown_opponent_skipped_witness :
  TEAM_ID_TO_ABBR !! Sample.guest = None /\
  row_team (Sample.row Sample.guest "" "Guest Player" "G" 11 2 5 1 0 0)
           (iTeamId (resolve_columns Sample.headers)) = Ok Sample.guest /\
  process_boxscore Sample.w_unknown_opponent Sample.a Sample.MIL
                   Sample.game_unknown_opponent = Ok None /\
  game_step Sample.w_unknown_opponent Sample.a Sample.MIL
            (zero_buckets, 0) "guest" = Ok (zero_buckets, 0).
Proof.
  assert (Htab : TEAM_ID_TO_ABBR !! Sample.guest = None)
    by (vm_compute; reflexivity).
  split; [exact Htab|]. split; [vm_compute; reflexivity|].
  destruct (C10_unknown_opponent_skipped
              Sample.w_unknown_opponent Sample.a Sample.MIL "guest"
              Sample.game_unknown_opponent
              (ResultSet (CStr "PlayerStats") (Some Sample.headers)
                 (Some [Sample.row Sample.MIL "MIL" "Damian Lillard" "G"
                                   20 4 7 3 1 0;
                        Sample.row Sample.guest "" "Guest Player" "G"
                                   11 2 5 1 0 0]))
              Sample.headers
              [Sample.row Sample.MIL "MIL" "Damian Lillard" "G" 20 4 7 3 1 0;
               Sample.row Sample.guest "" "Guest Player" "G" 11 2 5 1 0 0]
              (Sample.row Sample.guest "" "Guest Player" "G" 11 2 5 1 0 0)
              Sample.guest (CStr ""))
    as (Hskip & Hstep & _).
  - vm_compute. reflexivity.
  - vm_compute. reflexivity.
  - reflexivity.
  - discriminate.
  - reflexivity.
  - vm_compute. reflexivity.
  - vm_compute. reflexivity.
  - exact Htab.
  - vm_compute. reflexivity.
  - reflexivity.
  - split; [exact Hskip|]. apply Hstep.
Defined.

(** ** Columns *)

Lemma list_index_spec (x : string) (l : list string) :
  match list_index x l with
  | Some i => l !! i = Some x /\ forall j y, (j < i)%nat -> l !! j = Some y -> y <> x
  | None => ~ In x l
  end.
Proof.
  induction l as [|y l IH]; simpl.
  - auto.
  - destruct (String.eqb_spec y x) as [->|Hne].
    + split; [reflexivity|]. intros j z Hj. lia.
    + destruct (list_index x l) as [i|]; simpl.
      * destruct IH as [Hi Hlt]. split; [exact Hi|].
        intros [|j] z Hj Hz; simpl in Hz.
        -- injection Hz as <-. exact Hne.
        -- eapply Hlt; [|exact Hz]. lia.
      * intros [E|Hin]; [congruence|contradiction].
Qed.

(** [idx] answers with the position of the first header that equals, in
    lower case, the first candidate that occurs among the headers, and
    with -1 when no candidate occurs. *)
Lemma idx_names_spec (lower names : list string) :
  (idx_names lower names = -1 /\
   forall n, In n names -> ~ In (py_lower n) lower) \/
  (exists (before : list string) (n : string) (after : list string) (i : nat),
      names = before ++ n :: after /\
      (forall m, In m before -> ~ In (py_lower m) lower) /\
      idx_names lower names = Z.of_nat i /\
      lower !! i = Some (py_lower n) /\
      forall j y, (j < i)%nat -> lower !! j = Some y -> y <> py_lower n).
Proof.
  induction names as [|n names IH]; simpl.
  - left. split; [reflexivity|]. intros n [].
  - pose proof (list_index_spec (py_lower n) lower) as Hn.
    destruct (list_index (py_lower n) lower) as [i|].
    + right. exists [], n, names, i. destruct Hn as [Hi Hlt].
      repeat split; auto.
    + destruct IH as [[E Hnone]|(before & m & after & i & -> & Hb & E & Hi & Hlt)].
      * left. split; [exact E|]. intros m [<-|Hm]; auto.
      * right. exists (n :: before), m, after, i.
        repeat split; auto; intros m' [<-|Hm']; auto.
Qed.

Lemma idx_missing (headers : list cell) (names : list string) :
  (forall n, In n names ->
     ~ In (py_lower n)
          (map (fun h => py_lower (py_str (py_or h (CStr "")))) headers)) ->
  idx headers names = -1.
Proof.
  unfold idx. intros Hnone.
  destruct (idx_names_spec
              (map (fun h => py_lower (py_str (py_or h (CStr "")))) headers)
              names)
    as [[E _]|(before & n & after & i & -> & _ & _ & Hi & _)]; [exact E|].
  exfalso. apply (Hnone n).
  - apply in_or_app. right. left. reflexivity.
  - apply list_elem_of_In. eapply list_elem_of_lookup_2, Hi.
Qed.

(** [l[-1]] is the last element of a list that is not empty. *)
Lemma py_index_minus_one {A : Type} (l : list A) (x : A) :
  py_index (l ++ [x]) (-1) = Ok x.
Proof.
  unfold py_index. rewrite length_app. simpl length.
  replace (if (-1 <? 0)%Z then -1 + Z.of_nat (length l + 1) else -1)
    with (Z.of_nat (length l)) by (simpl; lia).
  destruct ((_ <? 0)%Z || _) eqn:E.
  - apply orb_true_iff in E. destruct E as [E|E];
      [apply Z.ltb_lt in E|apply Z.leb_le in E]; lia.
  - rewrite Nat2Z.id. rewrite lookup_app_r by lia.
    rewrite Nat.sub_diag. reflexivity.
Qed.

(** C4, on the code.  The header list of this boxscore has no [PTS]
    column, so [idx] answers -1; the script then reads [r[-1]], the last
    cell of the row, which is the row's [BLK] value 3, where the
    specification has the field default to zero.  The row is therefore
    counted with 3 points in PG instead of being skipped. *)
Theorem C4_missing_column_reads_last_cell :
  idx Sample.headers_without_pts ["PTS"] = -1 /\
  row_stat [CInt Sample.BOS; CStr "BOS"; CStr "Jrue Holiday"; CStr "G";
            CInt 4; CInt 5; CInt 3]
           (iPTS (resolve_columns Sample.headers_without_pts)) = Ok 3 /\
  exists r,
    compute_for_season Sample.w_without_pts Sample.a Sample.MIL 2025 = Ok r /\
    processed_l r = 1 /\
    totals_l r !! "PG" = Some 3.
Proof.
  split; [vm_compute; reflexivity|]. split; [vm_compute; reflexivity|].
  eexists. split; [vm_compute; reflexivity|].
  split; vm_compute; reflexivity.
Qed.

(** ** The depth chart *)



Lemma add_buckets_step k keys dc mapping mapping' :
  add_buckets (k :: keys) dc mapping = Ok mapping' ->
  exists arr m1,
    listed dc k = omap entry_norm arr /\
    add_entries k arr mapping = Ok m1 /\
    add_buckets keys dc m1 = Ok mapping'.
Proof.
  simpl. intros H. bind_ok H v Hv. bind_ok H arr Harr. bind_ok H m1 H1.
  exists arr, m1. unfold listed. rewrite Hv, Harr. auto.
Qed.







(** ** The buckets of a game *)

Lemma bucket_sum_add (d : gmap string Z) (key : string) (old val : Z) :
  In key BUCKETS_KEYS -> d !! key = Some old ->
  bucket_sum (<[key := old + val]> d) = bucket_sum d + val.
Proof.
  unfold bucket_sum, BUCKETS_KEYS. simpl.
  intros [<-|[<-|[<-|[<-|[<-|[]]]]]] Hold;
    repeat (rewrite lookup_insert_eq || rewrite lookup_insert_ne by discriminate);
    rewrite Hold; simpl; lia.
Qed.

(** What a row does to the buckets of the game. *)
Lemma row_step_effect metric cols opp_id depth_map gb r gb' :
  row_step metric cols opp_id depth_map gb r = Ok gb' ->
  (exists t, row_team r (iTeamId cols) = Ok t) /\
  (counted metric cols opp_id r = false -> gb' = gb) /\
  (counted metric cols opp_id r = true ->
   exists old,
     gb !! assigned_bucket cols depth_map r = Some old /\
     gb' = <[assigned_bucket cols depth_map r
             := old + row_metric metric cols r]> gb).
Proof.
  unfold row_step, counted, is_opponent_row, row_metric, assigned_bucket.
  intros H. bind_ok H t Ht. rewrite Ht. split; [eauto|].
  destruct (t =? opp_id)%Z; cbn [negb andb] in *.
  2: { injection H as <-. split; [reflexivity|discriminate]. }
  bind_ok H name Hn. bind_ok H raw Hp. bind_ok H val Hv.
  rewrite Hn, Hp, Hv.
  destruct (val =? 0)%Z; cbn [negb].
  { injection H as <-. split; [reflexivity|discriminate]. }
  split; [discriminate|]. intros _.
  assert (Hheur : (bucket <- heuristic_of_row cols (py_upper raw) r ;;
                   bucket_add gb bucket val) = Ok gb' ->
                  exists old,
                    gb !! match heuristic_of_row cols (py_upper raw) r with
                          | Ok bucket => bucket
                          | Raise _ => ""
                          end = Some old /\
                    gb' = <[match heuristic_of_row cols (py_upper raw) r with
                            | Ok bucket => bucket
                            | Raise _ => ""
                            end := old + val]> gb).
  { intros H'. bind_ok H' b Hb. rewrite Hb.
    unfold bucket_add in H'. destruct (gb !! b) as [old|]; [|discriminate].
    injection H' as <-. eauto. }
  destruct (depth_map !! norm_name name) as [key|]; [|apply Hheur, H].
  destruct (in_keys key BUCKETS_KEYS); [|apply Hheur, H].
  unfold bucket_add in H. destruct (gb !! key) as [old|]; [|discriminate].
  injection H as <-. eauto.
Qed.

Lemma rows_loop_sum metric cols opp_id depth_map rows : forall gb gb',
  five_keys gb ->
  rows_loop metric cols opp_id depth_map rows gb = Ok gb' ->
  bucket_sum gb'
  = bucket_sum gb
    + sum_Z (map (row_metric metric cols)
                 (List.filter (counted metric cols opp_id) rows)).
Proof.
  induction rows as [|r rows IH]; intros gb gb' H5 H; simpl in H.
  - injection H as <-. simpl. lia.
  - bind_ok H gb1 H1.
    pose proof (row_step_five_keys _ _ _ _ _ _ _ H5 H1) as H5'.
    rewrite (IH _ _ H5' H). simpl.
    destruct (row_step_effect _ _ _ _ _ _ _ H1) as (_ & Hskip & Hadd).
    destruct (counted metric cols opp_id r).
    + destruct Hadd as (old & Hold & ->); [reflexivity|].
      rewrite bucket_sum_add.
      * simpl. lia.
      * eapply five_keys_only; [exact H5|eauto].
      * exact Hold.
    + rewrite Hskip by reflexivity. lia.
Qed.

Lemma rows_loop_bucket metric cols opp_id depth_map k rows : forall gb gb' v,
  rows_loop metric cols opp_id depth_map rows gb = Ok gb' ->
  gb !! k = Some v ->
  gb' !! k
  = Some (v + sum_Z (map (row_metric metric cols)
                (List.filter
                   (fun r => counted metric cols opp_id r
                             && String.eqb (assigned_bucket cols depth_map r) k)
                   rows))).
Proof.
  induction rows as [|r rows IH]; intros gb gb' v H Hv; simpl in H.
  - injection H as <-. simpl. rewrite Hv. f_equal. lia.
  - bind_ok H gb1 H1. simpl.
    destruct (row_step_effect _ _ _ _ _ _ _ H1) as (_ & Hskip & Hadd).
    destruct (counted metric cols opp_id r); cbn [andb].
    + destruct Hadd as (old & Hold & ->); [reflexivity|].
      destruct (String.eqb_spec (assigned_bucket cols depth_map r) k)
        as [E|E].
      * rewrite E in *.
        rewrite (IH _ _ (v + row_metric metric cols r) H).
        -- simpl. f_equal. lia.
        -- rewrite lookup_insert_eq. congruence.
      * apply (IH _ _ v H). rewrite lookup_insert_ne by exact E. exact Hv.
    + rewrite Hskip in H by reflexivity. apply (IH _ _ v H Hv).
Qed.

Lemma rows_loop_rows_read metric cols opp_id depth_map rows : forall gb gb',
  rows_loop metric cols opp_id depth_map rows gb = Ok gb' ->
  forall r, In r rows -> exists t, row_team r (iTeamId cols) = Ok t.
Proof.
  induction rows as [|r0 rows IH]; intros gb gb' H r Hr; simpl in H.
  - destruct Hr.
  - bind_ok H gb1 H1. destruct Hr as [<-|Hr].
    + apply (row_step_effect _ _ _ _ _ _ _ H1).
    + eapply IH; eassumption.
Qed.

Lemma counted_assigned_in_keys metric cols opp_id depth_map gb r gb' :
  five_keys gb ->
  row_step metric cols opp_id depth_map gb r = Ok gb' ->
  counted metric cols opp_id r = true ->
  In (assigned_bucket cols depth_map r) BUCKETS_KEYS.
Proof.
  intros H5 H Hc.
  destruct (row_step_effect _ _ _ _ _ _ _ H) as (_ & _ & Hadd).
  destruct (Hadd Hc) as (old & Hold & _).
  eapply five_keys_only; [exact H5|eauto].
Qed.

Lemma rows_loop_assigned metric cols opp_id depth_map rows : forall gb gb',
  five_keys gb ->
  rows_loop metric cols opp_id depth_map rows gb = Ok gb' ->
  forall r, In r rows -> counted metric cols opp_id r = true ->
            In (assigned_bucket cols depth_map r) BUCKETS_KEYS.
Proof.
  induction rows as [|r0 rows IH]; intros gb gb' H5 H r Hr Hc; simpl in H.
  - destruct Hr.
  - bind_ok H gb1 H1. destruct Hr as [<-|Hr].
    + eapply counted_assigned_in_keys; eassumption.
    + eapply IH; [|exact H|exact Hr|exact Hc].
      eapply row_step_five_keys; eassumption.
Qed.

(** A processed game is the loop over the rows of the selected set. *)
Lemma process_boxscore_processed w a team bs gb :
  process_boxscore w a team bs = Ok (Some gb) ->
  exists p headers rows opp_row opp_id opp_abbr,
    select_pset (default [] (resultSets bs)) = Some p /\
    rs_headers p = Some headers /\ rs_rowSet p = Some rows /\
    find_opp_row (iTeamId (resolve_columns headers)) team rows
    = Ok (Some opp_row) /\
    row_team opp_row (iTeamId (resolve_columns headers)) = Ok opp_id /\
    opponent_abbr (resolve_columns headers) opp_row opp_id = Ok opp_abbr /\
    rows_loop (a_metric a) (resolve_columns headers) opp_id
              (fetch_depth_chart_buckets w (a_host a) opp_abbr)
              rows zero_buckets = Ok gb.
Proof.
  unfold process_boxscore. intros H.
  destruct (select_pset (default [] (resultSets bs))) as [p|]; [|discriminate].
  destruct (rs_headers p) as [headers|] eqn:Hh; [|discriminate].
  destruct (rs_rowSet p) as [rows|] eqn:Hr;
    [|destruct (default [] (Some headers)); discriminate].
  cbv beta iota zeta delta [default from_option id] in H.
  destruct headers as [|h hs]; [discriminate|].
  destruct rows as [|r0 rows]; [discriminate|].
  bind_ok H found Hf. destruct found as [[|c opp_row]|]; try discriminate.
  bind_ok H opp_id Ho. bind_ok H abbr Ha.
  destruct (String.eqb abbr ""); [discriminate|].
  bind_ok H gb1 Hgb. injection H as <-.
  exists p, (h :: hs), (r0 :: rows), (c :: opp_row), opp_id, abbr.
  repeat split; auto.
Qed.

(** C2. For a processed game, the five per-bucket deltas add up to the sum
    of the selected metric over the rows of the opponent whose value is
    not zero.  Every row of the game was read; each counted row went to
    one bucket, the roster's when the mapping holds the normalised name and
    the heuristic's otherwise, and the delta of a bucket is the sum of the
    values of the rows that went to it: no row is counted twice and only
    the rows with value zero are left out. *)
Theorem C2_game_deltas_sum (w : world) (a : args) (team_id : Z)
    (bs : boxscore) (gb : gmap string Z) :
  process_boxscore w a team_id bs = Ok (Some gb) ->
  exists p headers rows opp_row opp_id opp_abbr,
    select_pset (default [] (resultSets bs)) = Some p /\
    rs_headers p = Some headers /\ rs_rowSet p = Some rows /\
    let cols := resolve_columns headers in
    let depth_map := fetch_depth_chart_buckets w (a_host a) opp_abbr in
    find_opp_row (iTeamId cols) team_id rows = Ok (Some opp_row) /\
    row_team opp_row (iTeamId cols) = Ok opp_id /\
    opponent_abbr cols opp_row opp_id = Ok opp_abbr /\
    (forall r, In r rows -> exists t, row_team r (iTeamId cols) = Ok t) /\
    bucket_sum gb
    = sum_Z (map (row_metric (a_metric a) cols)
                 (List.filter (counted (a_metric a) cols opp_id) rows)) /\
    (forall r, In r rows -> counted (a_metric a) cols opp_id r = true ->
               In (assigned_bucket cols depth_map r) BUCKETS_KEYS) /\
    (forall k, In k BUCKETS_KEYS ->
       gb !! k
       = Some (sum_Z (map (row_metric (a_metric a) cols)
                 (List.filter
                    (fun r => counted (a_metric a) cols opp_id r
                              && String.eqb (assigned_bucket cols depth_map r) k)
                    rows)))).
Proof.
  intros H. apply process_boxscore_processed in H.
  destruct H as (p & headers & rows & opp_row & opp_id & abbr
                 & Hp & Hh & Hr & Hf & Ho & Ha & Hloop).
  exists p, headers, rows, opp_row, opp_id, abbr.
  split; [exact Hp|]. split; [exact Hh|]. split; [exact Hr|].
  intros cols depth_map.
  split; [exact Hf|]. split; [exact Ho|]. split; [exact Ha|].
  split; [eapply rows_loop_rows_read, Hloop|].
  split.
  - rewrite (rows_loop_sum _ _ _ _ _ _ _ zero_buckets_five_keys Hloop).
    reflexivity.
  - split.
    + eapply rows_loop_assigned; [apply zero_buckets_five_keys|exact Hloop].
    + intros k Hk.
      rewrite (rows_loop_bucket _ _ _ _ k _ _ _ 0 Hloop
                 (zero_buckets_lookup k Hk)).
      reflexivity.
Qed.

Lemma C2_game_deltas_sum_witness :
  exists gb,
    process_boxscore Sample.w Sample.a Sample.MIL Sample.game = Ok (Some gb) /\
    bucket_sum gb = 25 + 12 + 10 + 9.
Proof.
  destruct (process_boxscore Sample.w Sample.a Sample.MIL Sample.game)
    as [[gb|]|e] eqn:E.
  2: { exfalso. vm_compute in E. discriminate E. }
  2: { exfalso. vm_compute in E. discriminate E. }
  exists gb. split; [reflexivity|].
  destruct (C2_game_deltas_sum Sample.w Sample.a Sample.MIL Sample.game gb E)
    as (p & headers & rows & opp_row & opp_id & abbr
        & Hp & Hh & Hr & Hf & Ho & _ & _ & Hsum & _).
  vm_compute in Hp. injection Hp as <-.
  vm_compute in Hh. injection Hh as <-.
  vm_compute in Hr. injection Hr as <-.
  vm_compute in Hf. injection Hf as <-.
  vm_compute in Ho. injection Ho as <-.
  rewrite Hsum. vm_compute. reflexivity.
Defined.

(** ** Name normalisation *)

(** *** Character classes *)

Lemma az_not_space (c : ascii) : is_az c = true -> is_space c = false.
Proof.
  destruct c as [[|] [|] [|] [|] [|] [|] [|] [|]]; vm_compute; congruence.
Qed.

Lemma az_is_word (c : ascii) : is_az c = true -> is_word c = true.
Proof. unfold is_word. intros ->. reflexivity. Qed.

Lemma space_not_word (c : ascii) : is_space c = true -> is_word c = false.
Proof.
  destruct c as [[|] [|] [|] [|] [|] [|] [|] [|]]; vm_compute; congruence.
Qed.

Lemma blank_other_class (c : ascii) : letter_or_space (blank_other c).
Proof.
  unfold letter_or_space, blank_other.
  destruct (is_az c) eqn:Ha; [left; exact Ha|].
  destruct (is_space c) eqn:Hs; [right; exact Hs|].
  right. reflexivity.
Qed.

Lemma letter_is_word (c : ascii) :
  letter_or_space c -> is_space c = false -> is_word c = true.
Proof. intros [H|H] Hs; [apply az_is_word, H|congruence]. Qed.

(** *** Words *)

Lemma words_space (c : ascii) (t : list ascii) :
  is_space c = true -> words (c :: t) = words t.
Proof. simpl. intros ->. reflexivity. Qed.

Lemma words_letter_nonempty (c : ascii) (t : list ascii) :
  is_space c = false -> words (c :: t) <> [].
Proof.
  simpl. intros ->. destruct t as [|d t]; [discriminate|].
  destruct (is_space d); [discriminate|].
  destruct (words (d :: t)); discriminate.
Qed.

Lemma words_letter_space (c d : ascii) (t : list ascii) :
  is_space c = false -> is_space d = true ->
  words (c :: d :: t) = [c] :: words (d :: t).
Proof.
  intros Hc Hd.
  change (words (c :: d :: t)) with
    (if is_space c then words (d :: t)
     else if is_space d then [c] :: words (d :: t)
          else match words (d :: t) with
               | w :: ws => (c :: w) :: ws
               | [] => [[c]]
               end).
  rewrite Hc, Hd. reflexivity.
Qed.

Lemma words_letter_letter (c d : ascii) (t : list ascii) :
  is_space c = false -> is_space d = false ->
  words (c :: d :: t)
  = match words (d :: t) with
    | w :: ws => (c :: w) :: ws
    | [] => [[c]]
    end.
Proof.
  intros Hc Hd.
  change (words (c :: d :: t)) with
    (if is_space c then words (d :: t)
     else if is_space d then [c] :: words (d :: t)
          else match words (d :: t) with
               | w :: ws => (c :: w) :: ws
               | [] => [[c]]
               end).
  rewrite Hc, Hd. reflexivity.
Qed.

(** A word followed by a gap is the first word of the text. *)
Lemma words_word_app (w rest : list ascii) :
  w <> [] -> Forall (fun c => is_space c = false) w -> at_gap rest ->
  words (w ++ rest) = w :: words rest.
Proof.
  induction w as [|c w IH]; intros Hne Hw Hrest; [contradiction|].
  inversion Hw as [|c' w' Hc Hw']; subst.
  destruct w as [|d w].
  - simpl. rewrite Hc. destruct rest as [|e rest]; [reflexivity|].
    simpl in Hrest. rewrite Hrest. reflexivity.
  - change ((c :: d :: w) ++ rest) with (c :: ((d :: w) ++ rest)).
    assert (IH' : words ((d :: w) ++ rest) = (d :: w) :: words rest)
      by (apply IH; [discriminate|exact Hw'|exact Hrest]).
    inversion Hw' as [|d' w'' Hd _]; subst.
    change (c :: (d :: w) ++ rest) with (c :: d :: (w ++ rest)).
    rewrite (words_letter_letter c d (w ++ rest) Hc Hd).
    change (d :: w ++ rest) with ((d :: w) ++ rest).
    rewrite IH'. reflexivity.
Qed.

Lemma words_nonempty (s : list ascii) : Forall (fun w => w <> []) (words s).
Proof.
  induction s as [|c t IH]; simpl; [constructor|].
  destruct (is_space c); [exact IH|].
  destruct t as [|d t]; [repeat constructor; discriminate|].
  destruct (is_space d); [constructor; [discriminate|exact IH]|].
  destruct (words (d :: t)) as [|w ws];
    [repeat constructor; discriminate|].
  inversion IH; subst. constructor; [discriminate|assumption].
Qed.

Lemma unwords_nil (ws : list (list ascii)) :
  Forall (fun w => w <> []) ws -> unwords ws = [] -> ws = [].
Proof.
  destruct ws as [|w ws]; [reflexivity|]. intros Hne H. exfalso.
  inversion Hne as [|w' ws' Hw _]; subst. simpl in H.
  destruct ws; [contradiction|]. destruct w; [contradiction|discriminate].
Qed.

Lemma unwords_cons_char (c : ascii) (w : list ascii) (ws : list (list ascii)) :
  unwords ((c :: w) :: ws) = c :: unwords (w :: ws).
Proof. simpl. destruct ws; reflexivity. Qed.

Lemma words_lstrip (s : list ascii) : words (lstrip s) = words s.
Proof.
  induction s as [|c t IH]; [reflexivity|].
  simpl lstrip. destruct (is_space c) eqn:Hc; [|reflexivity].
  rewrite IH. symmetry. apply words_space, Hc.
Qed.

Lemma lstrip_at_word (s : list ascii) :
  match lstrip s with [] => True | c :: _ => is_space c = false end.
Proof.
  induction s as [|c t IH]; simpl; [exact I|].
  destruct (is_space c) eqn:Hc; [exact IH|exact Hc].
Qed.

(** *** Collapsing and trimming *)

Lemma lstrip_collapse (s : list ascii) : forall b,
  lstrip (collapse b s) = collapse false (lstrip s).
Proof.
  induction s as [|c t IH]; intros b; simpl; [reflexivity|].
  destruct (is_space c) eqn:Hc.
  - destruct b; simpl; apply IH.
  - simpl. rewrite Hc. reflexivity.
Qed.

Lemma rstrip_letter (c : ascii) (s : list ascii) :
  is_space c = false -> rstrip (c :: s) = c :: rstrip s.
Proof. simpl. intros ->. destruct (rstrip s); reflexivity. Qed.

(** The space that stands for a run of white space at the head of the
    text, if a word follows and the run has not been replaced yet. *)
Lemma rstrip_collapse (s : list ascii) : forall b,
  rstrip (collapse b s)
  = (match s with
     | [] => []
     | c :: _ => if is_space c && negb b
                 then match words s with [] => [] | _ :: _ => [" "%char] end
                 else []
     end) ++ unwords (words s).
Proof.
  induction s as [|c t IH]; intros b; [reflexivity|].
  destruct (is_space c) eqn:Hc.
  - rewrite (words_space c t Hc). simpl collapse. rewrite Hc.
    destruct b; cbn [andb negb].
    + rewrite IH. destruct t as [|d t]; [reflexivity|].
      rewrite andb_false_r. reflexivity.
    + assert (E : rstrip (collapse true t) = unwords (words t)).
      { rewrite IH. destruct t as [|d t]; [reflexivity|].
        rewrite andb_false_r. reflexivity. }
      simpl rstrip. rewrite E.
      destruct (words t) as [|w ws] eqn:Hw; [reflexivity|].
      destruct (unwords (w :: ws)) eqn:Hu; [|reflexivity].
      apply unwords_nil in Hu; [discriminate|].
      rewrite <- Hw. apply words_nonempty.
  - simpl collapse. rewrite Hc. rewrite rstrip_letter by exact Hc.
    rewrite IH. cbn [andb app].
    destruct t as [|d t].
    + simpl. rewrite Hc. reflexivity.
    + destruct (is_space d) eqn:Hd; cbn [andb negb].
      * rewrite (words_letter_space c d t Hc Hd).
        destruct (words (d :: t)) as [|w ws]; reflexivity.
      * rewrite (words_letter_letter c d t Hc Hd).
        pose proof (words_letter_nonempty d t Hd) as Hne.
        destruct (words (d :: t)) as [|w ws]; [contradiction|].
        rewrite unwords_cons_char. reflexivity.
Qed.

(** [' '.join(s.split())] *)
Lemma strip_collapse (s : list ascii) :
  strip (collapse false s) = unwords (words s).
Proof.
  unfold strip. rewrite lstrip_collapse, rstrip_collapse, words_lstrip.
  pose proof (lstrip_at_word s) as H.
  destruct (lstrip s) as [|c t]; [reflexivity|]. rewrite H. reflexivity.
Qed.

(** *** Runs *)

Lemma span_word_spec (s : list ascii) :
  s = fst (span_word s) ++ snd (span_word s) /\
  Forall (fun c => is_space c = false) (fst (span_word s)) /\
  at_gap (snd (span_word s)).
Proof.
  induction s as [|c t (IH1 & IH2 & IH3)]; simpl.
  - repeat split. constructor.
  - destruct (is_space c) eqn:Hc; simpl.
    + repeat split; [constructor|exact Hc].
    + repeat split; [congruence|constructor; assumption|exact IH3].
Qed.

(** A text is empty, or white space before a text, or a word before a gap. *)
Lemma runs_ind (P : list ascii -> Prop) :
  P [] ->
  (forall c t, is_space c = true -> P t -> P (c :: t)) ->
  (forall w rest,
      w <> [] -> Forall (fun c => is_space c = false) w -> at_gap rest ->
      P rest -> P (w ++ rest)) ->
  forall s, P s.
Proof.
  intros Hnil Hspace Hword s.
  remember (length s) as n eqn:Hn. revert s Hn.
  induction n as [n IH] using lt_wf_ind. intros s Hn.
  destruct s as [|c t]; [exact Hnil|].
  destruct (is_space c) eqn:Hc.
  - apply Hspace; [exact Hc|]. apply (IH (length t)); [|reflexivity].
    subst n. simpl. lia.
  - destruct (span_word_spec (c :: t)) as (Happ & Hw & Hgap).
    simpl in Happ, Hw, Hgap. rewrite Hc in Happ, Hw, Hgap.
    simpl in Happ, Hw, Hgap.
    assert (Hlen : (length (snd (span_word t)) < n)%nat).
    { subst n. apply (f_equal (@length ascii)) in Happ.
      simpl in Happ. rewrite length_app in Happ. simpl. lia. }
    rewrite Happ. change (c :: fst (span_word t) ++ snd (span_word t))
      with ((c :: fst (span_word t)) ++ snd (span_word t)).
    apply Hword; [discriminate|exact Hw|exact Hgap|].
    apply (IH (length (snd (span_word t)))); [exact Hlen|reflexivity].
Qed.

(** *** The suffix pattern *)

Lemma suffix_alternatives_words : word_lists suffix_alternatives.
Proof.
  unfold word_lists, suffix_alternatives. simpl.
  repeat (constructor; [split; [discriminate|repeat constructor]|]).
  constructor.
Qed.

Lemma is_suffix_token_In (w : list ascii) :
  is_suffix_token w = true <-> In w suffix_alternatives.
Proof.
  unfold is_suffix_token, suffix_alternatives.
  rewrite existsb_exists, in_map_iff. split.
  - intros (a & Ha & E). apply String.eqb_eq in E. exists a.
    split; [|exact Ha]. subst a. unfold chars, text.
    apply list_ascii_of_string_of_list_ascii.
  - intros (a & E & Ha). exists a. split; [exact Ha|].
    apply String.eqb_eq. subst w. unfold chars, text.
    apply string_of_list_ascii_of_string.
Qed.

Lemma sub_suffix_step (p : option ascii) (c : ascii) (t : list ascii) :
  sub_suffix p 0 (c :: t)
  = match (if boundary p (Some c)
           then match_alternatives suffix_alternatives (c :: t)
           else None) with
    | Some n => " "%char :: sub_suffix (Some c) (Nat.pred n) t
    | None => c :: sub_suffix (Some c) 0 t
    end.
Proof. reflexivity. Qed.

Lemma sub_suffix_skip (p : option ascii) (k : nat) (c : ascii)
    (t : list ascii) :
  sub_suffix p (S k) (c :: t) = sub_suffix (Some c) k t.
Proof. reflexivity. Qed.

Lemma drop_prefix_Some (a s r : list ascii) :
  drop_prefix a s = Some r -> s = a ++ r.
Proof.
  revert s. induction a as [|x a IH]; intros s H; simpl in H.
  - injection H as ->. reflexivity.
  - destruct s as [|y s]; [discriminate|].
    destruct (Ascii.eqb_spec x y) as [->|]; [|discriminate].
    simpl. f_equal. apply IH, H.
Qed.

Lemma drop_prefix_app (a r : list ascii) : drop_prefix a (a ++ r) = Some r.
Proof.
  induction a as [|x a IH]; simpl; [reflexivity|].
  rewrite Ascii.eqb_refl. exact IH.
Qed.

Lemma last_word (a : list ascii) :
  a <> [] -> Forall (fun c => is_word c = true) a -> word_at (last a) = true.
Proof.
  induction a as [|x a IH]; intros Hne Ha; [contradiction|].
  inversion Ha as [|x' a' Hx Ha']; subst.
  destruct a as [|y a]; [exact Hx|].
  change (last (x :: y :: a)) with (last (y :: a)).
  apply IH; [discriminate|exact Ha'].
Qed.

(** No alternative matches at a character that is not a word character. *)
Lemma match_at_break (alts : list (list ascii)) (s : list ascii) :
  word_lists alts -> at_break s -> match_alternatives alts s = None.
Proof.
  unfold at_break. intros Halts Hs.
  induction Halts as [|a alts [Hne Ha] _ IH]; simpl; [reflexivity|].
  destruct (drop_prefix a s) as [r|] eqn:E; [|exact IH].
  exfalso. apply drop_prefix_Some in E. subst s.
  destruct a as [|x a]; [contradiction|].
  inversion Ha as [|x' a' Hx _]; subst. simpl in Hs. congruence.
Qed.

(** At the head of a word that a break follows, an alternative matches
    exactly when the word is one of the alternatives. *)
Lemma match_at_word (alts : list (list ascii)) (w rest : list ascii) :
  word_lists alts ->
  w <> [] -> Forall (fun c => is_word c = true) w -> at_break rest ->
  (In w alts -> match_alternatives alts (w ++ rest) = Some (length w)) /\
  (~ In w alts -> match_alternatives alts (w ++ rest) = None).
Proof.
  intros Halts Hne Hw Hrest.
  induction Halts as [|a alts [Hane Ha] _ [IHin IHout]]; simpl.
  - split; [intros []|reflexivity].
  - destruct (decide (a = w)) as [->|Hneq].
    + rewrite drop_prefix_app.
      unfold boundary. rewrite (last_word w Hne Hw). unfold at_break in Hrest.
      rewrite Hrest. simpl. split; [reflexivity|].
      intros Hout. exfalso. apply Hout. left. reflexivity.
    + assert (Hnext : match_alternatives alts (w ++ rest)
                      = match drop_prefix a (w ++ rest) with
                        | Some r =>
                            if boundary (last a) (head r) then Some (length a)
                            else match_alternatives alts (w ++ rest)
                        | None => match_alternatives alts (w ++ rest)
                        end).
      { destruct (drop_prefix a (w ++ rest)) as [r|] eqn:E; [|reflexivity].
        apply drop_prefix_Some in E.
        unfold boundary. rewrite (last_word a Hane Ha).
        apply app_eq_app in E. destruct E as (l & [[E1 E2]|[E1 E2]]).
        - destruct l as [|x l];
            [rewrite app_nil_r in E1; congruence|].
          subst w r. apply Forall_app in Hw. destruct Hw as [_ Hl].
          inversion Hl as [|x' l' Hx _]; subst. simpl. rewrite Hx.
          reflexivity.
        - destruct l as [|x l];
            [rewrite app_nil_r in E1; congruence|].
          exfalso. subst a rest. unfold at_break in Hrest. simpl in Hrest.
          apply Forall_app in Ha. destruct Ha as [_ Hl].
          inversion Hl; subst. congruence. }
      rewrite <- Hnext. split.
      * intros [E|Hin]; [congruence|auto].
      * intros Hout. apply IHout. intros Hin. apply Hout. right. exact Hin.
Qed.

Lemma sub_suffix_prev_break (p : option ascii) (s : list ascii) :
  word_at p = false -> sub_suffix p 0 s = sub_suffix None 0 s.
Proof.
  intros Hp. destruct s as [|c t]; [reflexivity|].
  rewrite !sub_suffix_step. unfold boundary. rewrite Hp. reflexivity.
Qed.

(** A character that is not a word character is kept. *)
Lemma sub_suffix_break (p : option ascii) (c : ascii) (t : list ascii) :
  is_word c = false ->
  sub_suffix p 0 (c :: t) = c :: sub_suffix None 0 t.
Proof.
  intros Hc. rewrite sub_suffix_step.
  rewrite (match_at_break suffix_alternatives (c :: t)
             suffix_alternatives_words Hc).
  destruct (boundary p (Some c)); f_equal; apply sub_suffix_prev_break, Hc.
Qed.

Lemma sub_suffix_at_break (p : option ascii) (s : list ascii) :
  at_break s -> sub_suffix p 0 s = sub_suffix None 0 s.
Proof.
  destruct s as [|c t]; [reflexivity|]. intros Hc.
  unfold at_break in Hc. simpl in Hc.
  rewrite !(sub_suffix_break _ c t Hc). reflexivity.
Qed.

(** The characters of a match are consumed. *)
Lemma sub_suffix_consume (u rest : list ascii) : forall p,
  at_break rest ->
  sub_suffix p (length u) (u ++ rest) = sub_suffix None 0 rest.
Proof.
  induction u as [|x u IH]; intros p Hrest; simpl length; simpl app.
  - apply sub_suffix_at_break, Hrest.
  - rewrite sub_suffix_skip. apply IH, Hrest.
Qed.

(** Inside a word nothing matches. *)
Lemma sub_suffix_inside (u rest : list ascii) : forall p,
  word_at p = true -> Forall (fun c => is_word c = true) u -> at_break rest ->
  sub_suffix p 0 (u ++ rest) = u ++ sub_suffix None 0 rest.
Proof.
  induction u as [|x u IH]; intros p Hp Hu Hrest; simpl app.
  - apply sub_suffix_at_break, Hrest.
  - inversion Hu as [|x' u' Hx Hu']; subst.
    rewrite sub_suffix_step. unfold boundary. rewrite Hp. simpl word_at.
    rewrite Hx. simpl. f_equal. apply IH; [exact Hx|exact Hu'|exact Hrest].
Qed.

(** A word between two breaks is replaced by a space when it is one of the
    alternatives and kept otherwise. *)
Lemma sub_suffix_word (w rest : list ascii) :
  w <> [] -> Forall (fun c => is_word c = true) w -> at_break rest ->
  sub_suffix None 0 (w ++ rest)
  = (if is_suffix_token w then [" "%char] else w) ++ sub_suffix None 0 rest.
Proof.
  intros Hne Hw Hrest.
  destruct (match_at_word suffix_alternatives w rest
              suffix_alternatives_words Hne Hw Hrest) as [Hin Hout].
  destruct w as [|c w]; [contradiction|].
  inversion Hw as [|c' w' Hc Hw']; subst.
  simpl app. rewrite sub_suffix_step.
  unfold boundary. simpl word_at. rewrite Hc. cbn [xorb].
  change (c :: w ++ rest) with ((c :: w) ++ rest).
  destruct (is_suffix_token (c :: w)) eqn:E.
  - rewrite Hin by (apply is_suffix_token_In, E).
    simpl length. simpl Nat.pred. simpl app. f_equal.
    apply sub_suffix_consume, Hrest.
  - rewrite Hout.
    + simpl app. f_equal. apply sub_suffix_inside; assumption.
    + intros Hi. apply is_suffix_token_In in Hi. congruence.
Qed.

Lemma at_gap_break (s : list ascii) : at_gap s -> at_break s.
Proof.
  destruct s as [|c t]; [reflexivity|]. intros Hc.
  unfold at_gap in Hc. unfold at_break. simpl.
  apply space_not_word, Hc.
Qed.

Lemma sub_suffix_at_gap (s : list ascii) :
  at_gap s -> at_gap (sub_suffix None 0 s).
Proof.
  destruct s as [|c t]; [intros _; exact I|]. intros Hc.
  unfold at_gap in Hc.
  rewrite (sub_suffix_break None c t (space_not_word c Hc)). exact Hc.
Qed.

(** The words that are left are the words that are not suffix tokens. *)
Lemma words_sub_suffix (s : list ascii) :
  Forall letter_or_space s ->
  words (sub_suffix None 0 s)
  = List.filter (fun w => negb (is_suffix_token w)) (words s).
Proof.
  induction s as [|c t Hc IH|w rest Hne Hw Hgap IH] using runs_ind; intros Hs.
  - reflexivity.
  - inversion Hs; subst.
    rewrite (sub_suffix_break None c t (space_not_word c Hc)).
    rewrite !(words_space c _ Hc). apply IH. assumption.
  - apply Forall_app in Hs. destruct Hs as [Hsw Hsr].
    assert (Hword : Forall (fun c => is_word c = true) w).
    { rewrite Forall_forall in *. intros c Hin.
      apply letter_is_word; auto. }
    rewrite (sub_suffix_word w rest Hne Hword (at_gap_break rest Hgap)).
    rewrite (words_word_app w rest Hne Hw Hgap). simpl List.filter.
    destruct (is_suffix_token w); simpl negb; cbv iota.
    + simpl app. rewrite words_space by reflexivity. apply IH, Hsr.
    + rewrite (words_word_app w _ Hne Hw (sub_suffix_at_gap rest Hgap)).
      f_equal. apply IH, Hsr.
Qed.

Lemma norm_name_refines (s : string) : norm_name s = normalize_spec s.
Proof.
  unfold norm_name, normalize_spec, norm_chars. f_equal.
  rewrite strip_collapse. f_equal. apply words_sub_suffix.
  apply Forall_map, Forall_forall. intros c _. apply blank_other_class.
Qed.

(** C7. [norm_name] is a total function on strings that computes what the
    specification describes: the input in lower case, a space put for
    every character that is neither a lower-case letter nor white space,
    the standalone tokens "jr", "sr", "ii", "iii" and "iv" removed, the
    runs of white space collapsed to one space and the ends trimmed, which
    is the words that are not suffix tokens joined by single spaces.  The
    empty string and [None] give the empty string, and "LeBron James Jr."
    and "lebron james" have the same normal form. *)
Theorem C7_normalize :
  (forall s, norm_name s = normalize_spec s) /\
  (forall s, norm_name_val (PStr s) = Ok (norm_name s)) /\
  norm_name "" = "" /\
  norm_name_val PNone = Ok "" /\
  norm_name "LeBron James Jr." = norm_name "lebron james" /\
  norm_name "LeBron James Jr." = "lebron james".
Proof.
  split; [exact norm_name_refines|]. split.
  - intros s. unfold norm_name_val, pv_or. simpl pv_truthy.
    destruct (String.eqb_spec s "") as [->|Hne]; reflexivity.
  - repeat split; vm_compute; reflexivity.
Qed.

(** ** More on the columns *)

Lemma chars_text (l : list ascii) : chars (text l) = l.
Proof. apply list_ascii_of_string_of_list_ascii. Qed.

Lemma text_chars (s : string) : text (chars s) = s.
Proof. apply string_of_list_ascii_of_string. Qed.

Lemma lower_upper_char (c : ascii) : lower_char (upper_char c) = lower_char c.
Proof.
  destruct c as [[|] [|] [|] [|] [|] [|] [|] [|]]; vm_compute; reflexivity.
Qed.

Lemma py_lower_upper (s : string) : py_lower (py_upper s) = py_lower s.
Proof.
  unfold py_lower, py_upper. rewrite chars_text, map_map. f_equal.
  apply map_ext. intros c. apply lower_upper_char.
Qed.

Lemma py_str_or_CStr (s : string) : py_str (py_or (CStr s) (CStr "")) = s.
Proof.
  unfold py_or. simpl.
  destruct (String.eqb_spec s "") as [->|Hne]; reflexivity.
Qed.

Lemma idx_names_bounds (lower names : list string) :
  -1 <= idx_names lower names < Z.of_nat (length lower).
Proof.
  destruct (idx_names_spec lower names)
    as [[E _]|(before & n & after & i & _ & _ & E & Hi & _)]; rewrite E.
  - lia.
  - apply lookup_lt_Some in Hi. lia.
Qed.

(** X1. [idx] answers with -1 exactly when none of the candidate names
    equals a header, both in lower case; any other answer is a position
    inside the header list, the first position of the first candidate
    that occurs among the headers. *)
Theorem idx_characterised (headers : list cell) (names : list string) :
  -1 <= idx headers names < Z.of_nat (length headers) /\
  (idx headers names = -1 <->
   forall n, In n names -> ~ In (py_lower n) (lowered_headers headers)) /\
  (forall i : nat,
      idx headers names = Z.of_nat i ->
      exists before n after,
        names = before ++ n :: after /\
        (forall m, In m before ->
                   ~ In (py_lower m) (lowered_headers headers)) /\
        lowered_headers headers !! i = Some (py_lower n) /\
        forall j y, (j < i)%nat ->
                    lowered_headers headers !! j = Some y -> y <> py_lower n).
Proof.
  unfold idx. fold (lowered_headers headers).
  pose proof (idx_names_bounds (lowered_headers headers) names) as Hb.
  assert (Hlen : length (lowered_headers headers) = length headers)
    by apply length_map.
  rewrite Hlen in Hb. split; [exact Hb|].
  destruct (idx_names_spec (lowered_headers headers) names)
    as [[E Hnone]|(before & n & after & i & Hn & Hbefore & E & Hi & Hlt)].
  - split.
    + split; [intros _; exact Hnone|intros _; exact E].
    + intros i Hi. rewrite E in Hi. lia.
  - split.
    + split.
      * intros E'. rewrite E in E'. lia.
      * intros Hnone. exfalso. apply (Hnone n).
        -- rewrite Hn. apply in_or_app. right. left. reflexivity.
        -- apply list_elem_of_In. eapply list_elem_of_lookup_2, Hi.
    + intros i' Hi'. rewrite E in Hi'. apply Nat2Z.inj in Hi'. subst i'.
      exists before, n, after. auto.
Qed.

Lemma idx_characterised_witness :
  idx Sample.headers ["pts"] = Z.of_nat 4 /\
  exists before n after,
    ["pts"] = before ++ n :: after /\
    lowered_headers Sample.headers !! 4%nat = Some (py_lower n).
Proof.
  assert (E : idx Sample.headers ["pts"] = Z.of_nat 4)
    by (vm_compute; reflexivity).
  split; [exact E|].
  destruct (idx_characterised Sample.headers ["pts"]) as (_ & _ & Hpos).
  destruct (Hpos 4%nat E) as (before & n & after & Hn & _ & Hi & _).
  exists before, n, after. split; [exact Hn|exact Hi].
Defined.

Lemma idx_names_upper (lower names : list string) :
  idx_names lower (map py_upper names) = idx_names lower names.
Proof.
  induction names as [|n names IH]; simpl; [reflexivity|].
  rewrite py_lower_upper, IH. reflexivity.
Qed.

(** X2. On ASCII names the lookup of a column ignores the case: when the
    header names and the candidate names are ASCII strings, writing both
    in upper case does not change the answer. *)
Theorem idx_ignores_case (headers names : list string) :
  Forall ascii_text headers -> Forall ascii_text names ->
  idx (map (fun h => CStr (py_upper h)) headers) (map py_upper names)
  = idx (map CStr headers) names.
Proof.
  intros _ _. unfold idx. rewrite idx_names_upper. f_equal.
  rewrite !map_map. apply map_ext. intros h.
  rewrite !py_str_or_CStr. apply py_lower_upper.
Qed.

Lemma idx_ignores_case_witness :
  Forall ascii_text ["Team_Id"; "pts"] /\ Forall ascii_text ["PTS"] /\
  idx (map (fun h => CStr (py_upper h)) ["Team_Id"; "pts"])
      (map py_upper ["PTS"])
  = idx (map CStr ["Team_Id"; "pts"]) ["PTS"].
Proof.
  assert (Hh : Forall ascii_text ["Team_Id"; "pts"]).
  { repeat (apply Forall_cons_2;
            [unfold ascii_text; simpl;
             repeat (apply Forall_cons_2; [reflexivity|]); apply Forall_nil_2|]).
    apply Forall_nil_2. }
  assert (Hn : Forall ascii_text ["PTS"]).
  { repeat (apply Forall_cons_2;
            [unfold ascii_text; simpl;
             repeat (apply Forall_cons_2; [reflexivity|]); apply Forall_nil_2|]).
    apply Forall_nil_2. }
  split; [exact Hh|]. split; [exact Hn|].
  exact (idx_ignores_case ["Team_Id"; "pts"] ["PTS"] Hh Hn).
Defined.

(** X3. When no candidate name occurs among the headers, the index is -1
    and every access of a row through it reads the row's last cell: the
    statistic is [float] of the last cell (0 when that cell is false), the
    text is [str] of it, the team id [int] of it; on an empty row the
    access raises [IndexError]. *)
Theorem missing_column_reads_last_cell (headers : list cell)
    (names : list string) (r : list cell) (c : cell) :
  (forall n, In n names -> ~ In (py_lower n) (lowered_headers headers)) ->
  idx headers names = -1 /\
  row_stat (r ++ [c]) (idx headers names) = py_float (py_or c (CInt 0)) /\
  row_text (r ++ [c]) (idx headers names) = Ok (py_str (py_or c (CStr ""))) /\
  row_team (r ++ [c]) (idx headers names) = py_int c /\
  row_stat [] (idx headers names) = Raise IndexError.
Proof.
  intros Hnone. rewrite (idx_missing headers names Hnone).
  unfold row_stat, row_text, row_team.
  rewrite py_index_minus_one, py_index_nil. repeat split.
Qed.

Lemma missing_column_reads_last_cell_witness :
  (forall n, In n ["PTS"] ->
             ~ In (py_lower n) (lowered_headers Sample.headers_without_pts)) /\
  row_stat ([CInt Sample.BOS; CStr "BOS"; CStr "Jrue Holiday"; CStr "G";
             CInt 4; CInt 5] ++ [CInt 3])
           (idx Sample.headers_without_pts ["PTS"])
  = py_float (py_or (CInt 3) (CInt 0)).
Proof.
  assert (H : forall n, In n ["PTS"] ->
              ~ In (py_lower n) (lowered_headers Sample.headers_without_pts)).
  { intros n [<-|[]]. vm_compute. intuition discriminate. }
  split; [exact H|].
  apply (missing_column_reads_last_cell Sample.headers_without_pts ["PTS"]
           [CInt Sample.BOS; CStr "BOS"; CStr "Jrue Holiday"; CStr "G";
            CInt 4; CInt 5] (CInt 3) H).
Defined.

(** ** More on the games *)

Lemma find_opp_row_spec (i team : Z) (rows : list (list cell)) :
  match find_opp_row i team rows with
  | Ok (Some r) =>
      exists before after t,
        rows = before ++ r :: after /\
        (forall b, In b before -> row_team b i = Ok team) /\
        row_team r i = Ok t /\ t <> team
  | Ok None => forall r, In r rows -> row_team r i = Ok team
  | Raise e =>
      exists before r after,
        rows = before ++ r :: after /\
        (forall b, In b before -> row_team b i = Ok team) /\
        row_team r i = Raise e
  end.
Proof.
  induction rows as [|r rows IH]; simpl.
  - intros r [].
  - destruct (row_team r i) as [t|e] eqn:Ht; simpl.
    + destruct (Z.eqb_spec t team) as [->|Hne]; simpl.
      * destruct (find_opp_row i team rows) as [[r'|]|e].
        -- destruct IH as (before & after & t' & -> & Hb & Hr & Hne).
           exists (r :: before), after, t'. repeat split; auto.
           intros b [<-|Hin]; auto.
        -- intros r' [<-|Hin]; auto.
        -- destruct IH as (before & r' & after & -> & Hb & Hr).
           exists (r :: before), r', after. repeat split; auto.
           intros b [<-|Hin]; auto.
      * exists [], rows, t. repeat split; auto. intros b [].
    + exists [], r, rows. repeat split; auto. intros b [].
Qed.

Lemma find_opp_row_none (i team : Z) (rows : list (list cell)) :
  find_opp_row i team rows = Ok None <->
  forall r, In r rows -> row_team r i = Ok team.
Proof.
  pose proof (find_opp_row_spec i team rows) as H. split.
  - intros E. rewrite E in H. exact H.
  - intros Hall. destruct (find_opp_row i team rows) as [[r|]|e];
      [|reflexivity|].
    + destruct H as (before & after & t & -> & _ & Hr & Hne).
      rewrite Hall in Hr by (apply in_or_app; right; left; reflexivity).
      congruence.
    + destruct H as (before & r & after & -> & _ & Hr).
      rewrite Hall in Hr by (apply in_or_app; right; left; reflexivity).
      discriminate.
Qed.

(** X4. The opponent's row is the first row whose team id is not the
    target's: the rows before it are the target's, its own team id was
    read and differs.  There is none exactly when every row is the
    target's; and the search raises what the first unreadable team id
    before such a row raises. *)
Theorem opponent_is_first_other_team (i team : Z) (rows : list (list cell)) :
  (forall r, find_opp_row i team rows = Ok (Some r) ->
     exists before after t,
       rows = before ++ r :: after /\
       (forall b, In b before -> row_team b i = Ok team) /\
       row_team r i = Ok t /\ t <> team) /\
  (find_opp_row i team rows = Ok None <->
   forall r, In r rows -> row_team r i = Ok team) /\
  (forall e, find_opp_row i team rows = Raise e ->
     exists before r after,
       rows = before ++ r :: after /\
       (forall b, In b before -> row_team b i = Ok team) /\
       row_team r i = Raise e).
Proof.
  pose proof (find_opp_row_spec i team rows) as H.
  split; [|split].
  - intros r E. rewrite E in H. exact H.
  - apply find_opp_row_none.
  - intros e E. rewrite E in H. exact H.
Qed.

Lemma opponent_is_first_other_team_witness :
  find_opp_row 0 Sample.MIL Sample.rows
  = Ok (Some (Sample.row Sample.BOS "BOS" "Jayson Tatum" "F" 25 8 4 3 1 0)) /\
  exists before after t,
    Sample.rows
    = before ++ Sample.row Sample.BOS "BOS" "Jayson Tatum" "F" 25 8 4 3 1 0
             :: after /\
    t <> Sample.MIL.
Proof.
  assert (E : find_opp_row 0 Sample.MIL Sample.rows
              = Ok (Some (Sample.row Sample.BOS "BOS" "Jayson Tatum" "F"
                                     25 8 4 3 1 0)))
    by (vm_compute; reflexivity).
  split; [exact E|].
  destruct (opponent_is_first_other_team 0 Sample.MIL Sample.rows)
    as (Hsome & _ & _).
  destruct (Hsome _ E) as (before & after & t & Hrows & _ & _ & Hne).
  exists before, after, t. split; [exact Hrows|exact Hne].
Defined.

(** X5. A fetched game is left out, with the totals and the count of
    processed games unchanged, when it has no result set, when the
    selected result set has no header or no row, and when every row is a
    row of the target team. *)
Theorem game_without_opponent_skipped (w : world) (a : args) (team_id : Z)
    (bs : boxscore) :
  default [] (resultSets bs) = [] \/
  (exists p,
      select_pset (default [] (resultSets bs)) = Some p /\
      (default [] (rs_headers p) = [] \/
       default [] (rs_rowSet p) = [] \/
       forall r, In r (default [] (rs_rowSet p)) ->
                 row_team r (iTeamId (resolve_columns
                                        (default [] (rs_headers p))))
                 = Ok team_id)) ->
  process_boxscore w a team_id bs = Ok None /\
  forall gid st,
    nba_fetch w (boxscore_path gid) = Ok bs ->
    game_step w a team_id st gid = Ok st.
Proof.
  intros H.
  assert (Hskip : process_boxscore w a team_id bs = Ok None).
  { unfold process_boxscore. destruct H as [H|(p & Hp & H)].
    - rewrite H. reflexivity.
    - rewrite Hp. cbv beta iota zeta.
      destruct (default [] (rs_headers p)) as [|h hs] eqn:Hh; [reflexivity|].
      destruct (default [] (rs_rowSet p)) as [|r0 rows] eqn:Hr;
        [reflexivity|].
      destruct H as [H|[H|H]]; try discriminate.
      apply find_opp_row_none in H. rewrite H. reflexivity. }
  split; [exact Hskip|].
  intros gid st Hf. unfold game_step. rewrite Hf, Hskip. reflexivity.
Qed.

Lemma game_without_opponent_skipped_witness :
  select_pset (default [] (resultSets Cases.game_own_rows))
  = Some (ResultSet (CStr "PlayerStats") (Some Sample.headers)
            (Some [ Sample.row Sample.MIL "MIL" "Damian Lillard" "G"
                               20 4 7 3 1 0;
                    Sample.row Sample.MIL "MIL" "Brook Lopez" "C"
                               11 8 1 1 0 3 ])) /\
  process_boxscore Sample.w Sample.a Sample.MIL Cases.game_own_rows = Ok None.
Proof.
  split; [vm_compute; reflexivity|].
  apply (game_without_opponent_skipped Sample.w Sample.a Sample.MIL
           Cases.game_own_rows).
  right. eexists. split; [vm_compute; reflexivity|].
  right. right. intros r [<-|[<-|[]]]; vm_compute; reflexivity.
Defined.

(** ** More on the roster and the season *)

Lemma add_entries_values (K : list string) k arr : forall mapping mapping',
  In k K ->
  (forall n v, mapping !! n = Some v -> In v K) ->
  add_entries k arr mapping = Ok mapping' ->
  forall n v, mapping' !! n = Some v -> In v K.
Proof.
  induction arr as [|p arr IH]; intros m m' Hk Hm H; simpl in H.
  - injection H as <-. exact Hm.
  - bind_ok H name Hname. destruct (pv_truthy name).
    + bind_ok H n0 Hn0. eapply IH; [exact Hk| |exact H].
      intros n v. destruct (decide (n0 = n)) as [->|Hne].
      * rewrite lookup_insert_eq. intros [= <-]. exact Hk.
      * rewrite lookup_insert_ne by exact Hne. apply Hm.
    + eapply IH; eassumption.
Qed.

Lemma add_buckets_values (K : list string) keys dc : forall mapping mapping',
  (forall k, In k keys -> In k K) ->
  (forall n v, mapping !! n = Some v -> In v K) ->
  add_buckets keys dc mapping = Ok mapping' ->
  forall n v, mapping' !! n = Some v -> In v K.
Proof.
  induction keys as [|k keys IH]; intros m m' Hkeys Hm H.
  - simpl in H. injection H as <-. exact Hm.
  - apply add_buckets_step in H. destruct H as (arr & m1 & _ & H1 & H).
    eapply IH; [|eapply add_entries_values; [|exact Hm|exact H1]|exact H].
    + intros k' Hk'. apply Hkeys. right. exact Hk'.
    + apply Hkeys. left. reflexivity.
Qed.

Lemma fetch_values_in_keys (w : world) (base_url team_abbr n key : string) :
  fetch_depth_chart_buckets w base_url team_abbr !! n = Some key ->
  In key BUCKETS_KEYS.
Proof.
  unfold fetch_depth_chart_buckets, depth_chart_try.
  destruct (depth_chart_get w _) as [r|e]; cbv beta iota delta [bind];
    [|rewrite lookup_empty; discriminate].
  destruct (negb _); [rewrite lookup_empty; discriminate|].
  destruct (json r) as [js|e]; cbv beta iota;
    [|rewrite lookup_empty; discriminate].
  destruct (pv_get js "depthChart") as [v|e]; cbv beta iota;
    [|rewrite lookup_empty; discriminate].
  destruct (add_buckets BUCKETS_KEYS (pv_or v (PDict [])) ∅) as [m|e] eqn:Hm;
    [|rewrite lookup_empty; discriminate].
  eapply add_buckets_values; [| |exact Hm]; [auto|].
  intros n' v'. rewrite lookup_empty. discriminate.
Qed.

(** X6. A row of the opponent whose normalised player name the fetched
    depth chart holds is added to the depth chart's bucket, whatever the
    row's starting position and statistics say; the assists, rebounds and
    blocks cells are not read, so the row is counted even when they are
    unreadable. *)
Theorem roster_bucket_wins (w : world) (host abbr metric : string)
    (cols : columns) (opp_id : Z) (gb : gmap string Z) (r : list cell)
    (name raw key : string) (val : Z) :
  five_keys gb ->
  row_team r (iTeamId cols) = Ok opp_id ->
  row_text r (iPlayer cols) = Ok name ->
  row_text r (iStartPos cols) = Ok raw ->
  row_stat r (metric_column cols metric) = Ok val ->
  val <> 0 ->
  fetch_depth_chart_buckets w host abbr !! norm_name name = Some key ->
  exists old,
    gb !! key = Some old /\ In key BUCKETS_KEYS /\
    row_step metric cols opp_id (fetch_depth_chart_buckets w host abbr) gb r
    = Ok (<[key := old + val]> gb).
Proof.
  intros H5 Ht Hn Hp Hv Hv0 Hkey.
  pose proof (fetch_values_in_keys _ _ _ _ _ Hkey) as Hin.
  destruct (five_keys_lookup gb key H5 Hin) as [old Hold].
  exists old. split; [exact Hold|]. split; [exact Hin|].
  unfold row_step. rewrite Ht. cbv beta iota delta [bind].
  rewrite Z.eqb_refl. cbn [negb]. rewrite Hn, Hp. cbv beta iota.
  rewrite Hv. cbv beta iota. apply Z.eqb_neq in Hv0. rewrite Hv0, Hkey.
  apply in_keys_In in Hin. rewrite Hin. unfold bucket_add. rewrite Hold.
  reflexivity.
Qed.

Lemma roster_bucket_wins_witness :
  row_stat Cases.row_bad_assists (iAST (resolve_columns Sample.headers))
  = Raise ValueError /\
  fetch_depth_chart_buckets Sample.w Sample.host "BOS"
    !! norm_name "Jrue Holiday Jr." = Some "PG" /\
  exists old,
    zero_buckets !! "PG" = Some old /\
    row_step "pts" (resolve_columns Sample.headers) Sample.BOS
      (fetch_depth_chart_buckets Sample.w Sample.host "BOS")
      zero_buckets Cases.row_bad_assists
    = Ok (<["PG" := old + 12]> zero_buckets).
Proof.
  assert (Hkey : fetch_depth_chart_buckets Sample.w Sample.host "BOS"
                   !! norm_name "Jrue Holiday Jr." = Some "PG")
    by (vm_compute; reflexivity).
  split; [vm_compute; reflexivity|]. split; [exact Hkey|].
  assert (Hv : (12 : Z) <> 0) by discriminate.
  destruct (roster_bucket_wins Sample.w Sample.host "BOS" "pts"
              (resolve_columns Sample.headers) Sample.BOS zero_buckets
              Cases.row_bad_assists "Jrue Holiday Jr." "G" "PG" 12
              zero_buckets_five_keys eq_refl eq_refl eq_refl eq_refl Hv Hkey)
    as (old & Hold & _ & Hstep).
  exists old. split; [exact Hold|exact Hstep].
Defined.

(** *** Totals *)

Lemma add_game_lookup keys gb : forall totals totals',
  NoDup keys ->
  add_game keys totals gb = Ok totals' ->
  forall k,
    (In k keys ->
     exists t g, totals !! k = Some t /\ gb !! k = Some g /\
                 totals' !! k = Some (t + g)) /\
    (~ In k keys -> totals' !! k = totals !! k).
Proof.
  induction keys as [|k0 keys IH]; intros totals totals' Hnd H k; simpl in H.
  - injection H as <-. split; [intros []|reflexivity].
  - inversion Hnd as [|k0' keys' Hk0 Hnd']; subst.
    assert (Hk0' : ~ In k0 keys)
      by (intros Hi; apply Hk0, list_elem_of_In, Hi).
    destruct (gb !! k0) as [g|] eqn:Hg; [|discriminate].
    bind_ok H t1 H1. unfold bucket_add in H1.
    destruct (totals !! k0) as [t|] eqn:Ht; [|discriminate].
    injection H1 as <-.
    destruct (IH _ _ Hnd' H k) as [Hin Hout]. split.
    + intros [->|Hk].
      * exists t, g. split; [exact Ht|]. split; [exact Hg|].
        rewrite (proj2 (IH _ _ Hnd' H k) Hk0'). apply lookup_insert_eq.
      * destruct (Hin Hk) as (t' & g' & Ht' & Hg' & E).
        assert (k0 <> k) by (intros ->; contradiction).
        rewrite lookup_insert_ne in Ht' by assumption. eauto.
    + intros Hk. rewrite Hout by (intros Hi; apply Hk; right; exact Hi).
      apply lookup_insert_ne. intros ->. apply Hk. left. reflexivity.
Qed.

Lemma BUCKETS_KEYS_NoDup : NoDup BUCKETS_KEYS.
Proof.
  unfold BUCKETS_KEYS.
  repeat (apply NoDup_cons_2;
          [rewrite ?elem_of_cons, elem_of_nil; intuition discriminate|]).
  apply NoDup_nil_2.
Qed.

Lemma game_step_delta w a team st gid st' :
  five_keys (fst st) ->
  game_step w a team st gid = Ok st' ->
  match game_delta w a team gid with
  | Some gb =>
      snd st' = snd st + 1 /\
      forall k, In k BUCKETS_KEYS ->
        exists t, fst st !! k = Some t /\
                  fst st' !! k = Some (t + default 0 (gb !! k))
  | None => st' = st
  end.
Proof.
  unfold game_step, game_delta. intros H5 H.
  destruct (nba_fetch w (boxscore_path gid)) as [bs|e];
    [|injection H as <-; reflexivity].
  destruct (process_boxscore w a team bs) as [[gb|]|e'];
    cbv beta iota delta [bind] in H; [| |discriminate].
  - bind_ok H t Ht. injection H as <-. split; [reflexivity|].
    intros k Hk. cbn [fst].
    destruct (proj1 (add_game_lookup _ _ _ _ BUCKETS_KEYS_NoDup Ht k) Hk)
      as (t0 & g & Ht0 & Hg & E).
    exists t0. rewrite Hg in *. split; [exact Ht0|exact E].
  - injection H as <-. reflexivity.
Qed.

Lemma games_loop_deltas w a team gids : forall st st',
  five_keys (fst st) ->
  games_loop w a team gids st = Ok st' ->
  snd st' = snd st + Z.of_nat (length (omap (game_delta w a team) gids)) /\
  forall k, In k BUCKETS_KEYS ->
    exists t, fst st !! k = Some t /\
      fst st' !! k
      = Some (t + delta_sum k (omap (game_delta w a team) gids)).
Proof.
  induction gids as [|gid gids IH]; intros st st' H5 H; simpl in H.
  - injection H as <-. split; [simpl; lia|].
    intros k Hk. destruct (five_keys_lookup _ k H5 Hk) as [t Ht].
    exists t. split; [exact Ht|]. rewrite Ht. unfold delta_sum. simpl.
    f_equal. lia.
  - bind_ok H st1 H1.
    pose proof (game_step_five_keys _ _ _ _ _ _ H5 H1) as H5'.
    destruct (IH _ _ H5' H) as [Hn Hk].
    pose proof (game_step_delta _ _ _ _ _ _ H5 H1) as Hd.
    change (omap (game_delta w a team) (gid :: gids))
      with (match game_delta w a team gid with
            | Some gb => gb :: omap (game_delta w a team) gids
            | None => omap (game_delta w a team) gids
            end).
    destruct (game_delta w a team gid) as [gb|].
    + destruct Hd as [Hd1 Hdk]. split.
      * rewrite Hn, Hd1. simpl length. lia.
      * intros k Hin. destruct (Hdk k Hin) as (t & Ht & Ht1).
        destruct (Hk k Hin) as (t1 & Ht1' & E).
        exists t. split; [exact Ht|]. rewrite E. f_equal.
        unfold delta_sum. simpl. rewrite Ht1 in Ht1'. injection Ht1' as <-.
        lia.
    + subst st1. split; [exact Hn|exact Hk].
Qed.

(** X8. The totals of a season are cumulative: the count of processed
    games is the number of games of the list that are processed, and the
    total of each bucket is the sum of that bucket's deltas over those
    games, in the order of the list. *)
Theorem season_totals_cumulative (w : world) (a : args) (team_id : Z)
    (label : string) (gids : list string) (r : season_result) :
  season_of_gids w a team_id label gids = Ok r ->
  processed_l r
  = Z.of_nat (length (omap (game_delta w a team_id) gids)) /\
  forall k, In k BUCKETS_KEYS ->
    totals_l r !! k
    = Some (delta_sum k (omap (game_delta w a team_id) gids)).
Proof.
  unfold season_of_gids. intros H. bind_ok H st Hst. bind_ok H pg Hpg.
  injection H as <-. cbn [processed_l totals_l].
  destruct (games_loop_deltas w a team_id gids (zero_buckets, 0) st
              zero_buckets_five_keys Hst) as [Hn Hk].
  split; [exact Hn|]. intros k Hin.
  destruct (Hk k Hin) as (t & Ht & E). cbn [fst] in Ht.
  rewrite (zero_buckets_lookup k Hin) in Ht. injection Ht as <-.
  rewrite E. reflexivity.
Qed.

Lemma season_totals_cumulative_witness :
  exists r,
    season_of_gids Sample.w Sample.a Sample.MIL "2024-25" ["g1"; "g2"; "g1"]
    = Ok r /\
    processed_l r = 2 /\ totals_l r !! "PF" = Some (34 + 34).
Proof.
  destruct (season_of_gids Sample.w Sample.a Sample.MIL "2024-25"
              ["g1"; "g2"; "g1"]) as [r|e] eqn:E.
  2: { exfalso. vm_compute in E. discriminate E. }
  exists r. split; [reflexivity|].
  destruct (season_totals_cumulative _ _ _ _ _ _ E) as [Hn Hk].
  split.
  - rewrite Hn. vm_compute. reflexivity.
  - rewrite (Hk "PF") by (simpl; auto 10). vm_compute. reflexivity.
Defined.

(** *** Without a roster *)

Lemma assigned_bucket_empty (cols : columns) (r : list cell) :
  assigned_bucket cols ∅ r = heuristic_label cols r.
Proof.
  unfold assigned_bucket, heuristic_label.
  destruct (row_text r (iPlayer cols)); [rewrite lookup_empty|]; reflexivity.
Qed.

(** X9. When the depth chart of the opponent gives the empty mapping, the
    rows of a processed game are placed by the heuristic alone: the delta
    of each bucket is the sum of the metric over the counted rows to which
    the heuristic gives that bucket. *)
Theorem empty_roster_uses_heuristic (w : world) (host abbr metric : string)
    (cols : columns) (opp_id : Z) (rows : list (list cell))
    (gb : gmap string Z) :
  fetch_depth_chart_buckets w host abbr = ∅ ->
  rows_loop metric cols opp_id (fetch_depth_chart_buckets w host abbr)
            rows zero_buckets = Ok gb ->
  forall k, In k BUCKETS_KEYS ->
    gb !! k
    = Some (sum_Z (map (row_metric metric cols)
              (List.filter
                 (fun r => counted metric cols opp_id r
                           && String.eqb (heuristic_label cols r) k)
                 rows))).
Proof.
  intros Hempty Hloop k Hk. rewrite Hempty in Hloop.
  rewrite (rows_loop_bucket _ _ _ _ k _ _ _ 0 Hloop (zero_buckets_lookup k Hk)).
  f_equal. rewrite Z.add_0_l. f_equal. f_equal.
  apply filter_ext. intros r. rewrite assigned_bucket_empty. reflexivity.
Qed.

Lemma empty_roster_uses_heuristic_witness :
  fetch_depth_chart_buckets Sample.w Sample.host "NYK" = ∅ /\
  exists gb,
    rows_loop "pts" (resolve_columns Sample.headers) Sample.BOS
      (fetch_depth_chart_buckets Sample.w Sample.host "NYK")
      Sample.rows zero_buckets = Ok gb /\
    gb !! "PG" = Some 12 /\ gb !! "SG" = Some 10.
Proof.
  assert (Hempty : fetch_depth_chart_buckets Sample.w Sample.host "NYK" = ∅)
    by (vm_compute; reflexivity).
  split; [exact Hempty|].
  destruct (rows_loop "pts" (resolve_columns Sample.headers) Sample.BOS
              (fetch_depth_chart_buckets Sample.w Sample.host "NYK")
              Sample.rows zero_buckets) as [gb|e] eqn:E.
  2: { exfalso. vm_compute in E. discriminate E. }
  exists gb. split; [reflexivity|].
  pose proof (empty_roster_uses_heuristic _ _ _ _ _ _ _ _ Hempty E) as H.
  split.
  - rewrite (H "PG") by (simpl; auto 10). vm_compute. reflexivity.
  - rewrite (H "SG") by (simpl; auto 10). vm_compute. reflexivity.
Defined.

(** ** More on the normalised names *)

Lemma norm_chars_kept (s : list ascii) : norm_chars s = unwords (kept_words s).
Proof.
  unfold norm_chars, kept_words. rewrite strip_collapse. f_equal.
  apply words_sub_suffix, Forall_map, Forall_forall.
  intros c _. apply blank_other_class.
Qed.

Lemma words_Forall (P : ascii -> Prop) (s : list ascii) :
  Forall P s ->
  Forall (fun w => w <> [] /\ Forall (fun c => is_space c = false) w /\
                   Forall P w) (words s).
Proof.
  induction s as [|c t Hc IH|w rest Hne Hw Hgap IH] using runs_ind; intros Hs.
  - constructor.
  - rewrite (words_space c t Hc). apply IH. inversion Hs; assumption.
  - apply Forall_app in Hs. destruct Hs as [Hsw Hsr].
    rewrite (words_word_app w rest Hne Hw Hgap). constructor; auto.
Qed.

Lemma kept_words_name_words (s : list ascii) : Forall name_word (kept_words s).
Proof.
  unfold kept_words.
  assert (H : Forall letter_or_space (map blank_other (map lower_char s)))
    by (apply Forall_map, Forall_forall; intros c _; apply blank_other_class).
  apply words_Forall in H. rewrite Forall_forall in H.
  apply Forall_forall. intros w Hw.
  apply list_elem_of_In, filter_In in Hw. destruct Hw as [Hw Hkeep].
  destruct (H w (proj2 (list_elem_of_In _ _) Hw)) as (Hne & Hns & Hls).
  split; [exact Hne|]. split.
  - rewrite Forall_forall in *. intros c Hc.
    destruct (Hls c Hc) as [Ha|Hsp]; [exact Ha|].
    rewrite (Hns c Hc) in Hsp. discriminate.
  - destruct (is_suffix_token w); [discriminate|reflexivity].
Qed.

(** X10. A normalised name is a list of words joined by single spaces;
    each word is not empty, is made of the letters a to z only and is not
    one of the suffix tokens.  So the result has no upper-case letter,
    digit or punctuation, no space at either end and no two spaces in a
    row. *)
Theorem norm_name_shape (s : string) :
  exists ws, norm_name s = text (unwords ws) /\ Forall name_word ws.
Proof.
  exists (kept_words (chars s)). split.
  - unfold norm_name. rewrite norm_chars_kept. reflexivity.
  - apply kept_words_name_words.
Qed.

Lemma az_not_AZ (c : ascii) : is_az c = true -> is_AZ c = false.
Proof.
  destruct c as [[|] [|] [|] [|] [|] [|] [|] [|]]; vm_compute; congruence.
Qed.

Lemma space_not_AZ (c : ascii) : is_space c = true -> is_AZ c = false.
Proof.
  destruct c as [[|] [|] [|] [|] [|] [|] [|] [|]]; vm_compute; congruence.
Qed.

Lemma lower_char_fixed (c : ascii) : letter_or_space c -> lower_char c = c.
Proof.
  unfold lower_char. intros [H|H];
    [rewrite (az_not_AZ c H)|rewrite (space_not_AZ c H)]; reflexivity.
Qed.

Lemma blank_other_fixed (c : ascii) : letter_or_space c -> blank_other c = c.
Proof.
  unfold blank_other. intros [H|H]; rewrite H; [|rewrite orb_true_r];
    reflexivity.
Qed.

Lemma map_fixed {A : Type} (f : A -> A) (l : list A) :
  Forall (fun x => f x = x) l -> map f l = l.
Proof. induction 1 as [|x l Hx _ IH]; simpl; congruence. Qed.

Lemma unwords_letters (ws : list (list ascii)) :
  Forall name_word ws -> Forall letter_or_space (unwords ws).
Proof.
  induction 1 as [|w ws (_ & Hw & _) _ IH]; [constructor|].
  assert (Hl : Forall letter_or_space w).
  { rewrite Forall_forall in *. intros c Hc. left. auto. }
  simpl. destruct ws as [|w' ws]; [exact Hl|].
  apply Forall_app. split; [exact Hl|].
  constructor; [right; reflexivity|exact IH].
Qed.

Lemma words_unwords (ws : list (list ascii)) :
  Forall name_word ws -> words (unwords ws) = ws.
Proof.
  induction 1 as [|w ws (Hne & Hw & _) _ IH]; [reflexivity|].
  assert (Hns : Forall (fun c => is_space c = false) w).
  { rewrite Forall_forall in *. intros c Hc. apply az_not_space. auto. }
  simpl. destruct ws as [|w' ws].
  - rewrite <- (app_nil_r w) at 1.
    rewrite (words_word_app w [] Hne Hns I). reflexivity.
  - rewrite (words_word_app w _ Hne Hns); [|reflexivity].
    rewrite words_space by reflexivity. rewrite IH. reflexivity.
Qed.

Lemma filter_all {A : Type} (f : A -> bool) (l : list A) :
  Forall (fun x => f x = true) l -> List.filter f l = l.
Proof.
  induction 1 as [|x l Hx _ IH]; simpl; [reflexivity|].
  rewrite Hx, IH. reflexivity.
Qed.

Lemma kept_words_unwords (ws : list (list ascii)) :
  Forall name_word ws -> kept_words (unwords ws) = ws.
Proof.
  intros Hws. unfold kept_words.
  pose proof (unwords_letters ws Hws) as Hl.
  rewrite (map_fixed lower_char).
  2: { rewrite Forall_forall in *. intros c Hc. apply lower_char_fixed. auto. }
  rewrite (map_fixed blank_other).
  2: { rewrite Forall_forall in *. intros c Hc. apply blank_other_fixed. auto. }
  rewrite (words_unwords ws Hws). apply filter_all.
  rewrite Forall_forall in *. intros w Hw.
  destruct (Hws w Hw) as (_ & _ & Ht). rewrite Ht. reflexivity.
Qed.

(** X11. Normalising is idempotent: a normalised name is its own normal
    form, so a name taken from a normalised source matches itself. *)
Theorem norm_name_idempotent (s : string) :
  norm_name (norm_name s) = norm_name s.
Proof.
  unfold norm_name. rewrite chars_text, !norm_chars_kept.
  rewrite kept_words_unwords by apply kept_words_name_words. reflexivity.
Qed.

Lemma lower_lower_char (c : ascii) : lower_char (lower_char c) = lower_char c.
Proof.
  destruct c as [[|] [|] [|] [|] [|] [|] [|] [|]]; vm_compute; reflexivity.
Qed.

(** X12. On ASCII names the normal form does not depend on the case of
    the letters: an ASCII name, the name in upper case and the name in
    lower case have the same normal form. *)
Theorem norm_name_ignores_case (s : string) :
  ascii_text s ->
  norm_name (py_upper s) = norm_name s /\
  norm_name (py_lower s) = norm_name s.
Proof.
  intros _.
  assert (Hu : forall l, map lower_char (map upper_char l) = map lower_char l).
  { intros l. rewrite map_map. apply map_ext, lower_upper_char. }
  assert (Hl : forall l, map lower_char (map lower_char l) = map lower_char l).
  { intros l. rewrite map_map. apply map_ext, lower_lower_char. }
  unfold norm_name, py_upper, py_lower, norm_chars.
  rewrite !chars_text, Hu, Hl. split; reflexivity.
Qed.

Lemma norm_name_ignores_case_witness :
  ascii_text "LeBron James" /\
  norm_name (py_upper "LeBron James") = norm_name "LeBron James".
Proof.
  assert (H : ascii_text "LeBron James").
  { unfold ascii_text. simpl.
    repeat (apply Forall_cons_2; [reflexivity|]). apply Forall_nil_2. }
  split; [exact H|].
  exact (proj1 (norm_name_ignores_case "LeBron James" H)).
Defined.

Lemma chars_append (s1 s2 : string) : chars (s1 +:+ s2) = chars s1 ++ chars s2.
Proof.
  unfold chars. induction s1 as [|c s1 IH]; simpl; [reflexivity|].
  rewrite IH. reflexivity.
Qed.

Lemma words_app_gap (t u : list ascii) (c : ascii) :
  is_space c = true -> words (t ++ c :: u) = words t ++ words u.
Proof.
  intros Hc.
  induction t as [|c0 t Hc0 IH|w rest Hne Hw Hgap IH] using runs_ind.
  - change ([] ++ c :: u) with (c :: u). apply words_space, Hc.
  - change ((c0 :: t) ++ c :: u) with (c0 :: (t ++ c :: u)).
    rewrite (words_space c0 (t ++ c :: u) Hc0), (words_space c0 t Hc0).
    exact IH.
  - rewrite <- app_assoc.
    rewrite (words_word_app w rest Hne Hw Hgap).
    rewrite (words_word_app w (rest ++ c :: u) Hne Hw).
    + rewrite IH. reflexivity.
    + destruct rest as [|d rest]; [exact Hc|exact Hgap].
Qed.

Lemma kept_words_space_app (t u : list ascii) :
  kept_words (t ++ " "%char :: u) = kept_words t ++ kept_words u.
Proof.
  unfold kept_words. rewrite !map_app. simpl map.
  rewrite words_app_gap by reflexivity. apply List.filter_app.
Qed.

Lemma unwords_empty_name_words (ws : list (list ascii)) :
  Forall name_word ws -> unwords ws = [] -> ws = [].
Proof.
  intros Hws. apply unwords_nil. rewrite Forall_forall in *.
  intros w Hw. apply (Hws w Hw).
Qed.

(** X13. What follows a name after a space and normalises to nothing
    (suffix tokens, punctuation, digits) does not change the normal form
    of the name: "Jr.", "III" or "Sr" after a name are dropped. *)
Theorem norm_name_drops_trailing_suffix (s x : string) :
  norm_name x = "" ->
  norm_name (s +:+ " " +:+ x) = norm_name s.
Proof.
  unfold norm_name. rewrite !norm_chars_kept. intros Hx.
  apply (f_equal chars) in Hx. rewrite chars_text in Hx.
  apply unwords_empty_name_words in Hx; [|apply kept_words_name_words].
  rewrite !chars_append. change (chars " ") with [" "%char]. simpl app.
  rewrite kept_words_space_app, Hx, app_nil_r. reflexivity.
Qed.

Lemma norm_name_drops_trailing_suffix_witness :
  norm_name "Jr." = "" /\
  norm_name ("Tim Hardaway" +:+ " " +:+ "Jr.") = norm_name "Tim Hardaway".
Proof.
  assert (H : norm_name "Jr." = "") by (vm_compute; reflexivity).
  split; [exact H|].
  exact (norm_name_drops_trailing_suffix "Tim Hardaway" "Jr." H).
Defined.

(** ** More on the depth chart *)

Lemma norm_name_val_string (name : pyval) (n : string) :
  pv_truthy name = true -> norm_name_val name = Ok n ->
  exists s, name = PStr s.
Proof.
  unfold norm_name_val, pv_or. intros ->.
  destruct name; try discriminate. eauto.
Qed.

Lemma add_entries_names k arr : forall mapping mapping',
  add_entries k arr mapping = Ok mapping' ->
  forall p name,
    In p arr -> entry_name p = Ok name -> pv_truthy name = true ->
    exists s, name = PStr s.
Proof.
  induction arr as [|p0 arr IH]; intros m m' H p name Hp Hname Ht;
    simpl in H; [destruct Hp|].
  bind_ok H name0 Hname0. destruct Hp as [->|Hp].
  - rewrite Hname in Hname0. injection Hname0 as <-. rewrite Ht in H.
    bind_ok H n0 Hn0. eapply norm_name_val_string; eassumption.
  - destruct (pv_truthy name0).
    + bind_ok H n0 Hn0. eapply IH; eassumption.
    + eapply IH; eassumption.
Qed.

Lemma add_buckets_names keys dc : forall mapping mapping',
  add_buckets keys dc mapping = Ok mapping' ->
  forall k v arr p name,
    In k keys -> pv_get dc k = Ok v -> pv_iter (pv_or v (PList [])) = Ok arr ->
    In p arr -> entry_name p = Ok name -> pv_truthy name = true ->
    exists s, name = PStr s.
Proof.
  induction keys as [|k0 keys IH];
    intros m m' H k v arr p name Hk Hv Harr Hp Hname Ht; [destruct Hk|].
  simpl in H. bind_ok H v0 Hv0. bind_ok H arr0 Harr0. bind_ok H m1 H1.
  destruct Hk as [->|Hk].
  - rewrite Hv in Hv0. injection Hv0 as <-.
    rewrite Harr in Harr0. injection Harr0 as <-.
    eapply add_entries_names; eassumption.
  - eapply IH; eassumption.
Qed.

(** X14. One malformed entry discards the whole roster: when an entry
    listed under one of the five buckets has a name that is true but is
    not a string, the mapping is empty, also for the players listed
    correctly. *)
Theorem malformed_entry_discards_roster (w : world)
    (base_url team_abbr : string) (r : response pyval)
    (js v listing name p : pyval) (k : string) (arr : list pyval) :
  depth_chart_get w (base_url +:+ "/api/depth-chart?team=" +:+ team_abbr)
  = Ok r ->
  json r = Ok js ->
  pv_get js "depthChart" = Ok v ->
  In k BUCKETS_KEYS ->
  pv_get (pv_or v (PDict [])) k = Ok listing ->
  pv_iter (pv_or listing (PList [])) = Ok arr ->
  In p arr -> entry_name p = Ok name -> pv_truthy name = true ->
  (forall s, name <> PStr s) ->
  fetch_depth_chart_buckets w base_url team_abbr = ∅.
Proof.
  intros Hget Hjs Hv Hk Hl Harr Hp Hname Ht Hns.
  unfold fetch_depth_chart_buckets, depth_chart_try.
  rewrite Hget. cbv beta iota delta [bind].
  destruct (negb _); [reflexivity|]. rewrite Hjs. cbv beta iota.
  rewrite Hv. cbv beta iota.
  destruct (add_buckets BUCKETS_KEYS (pv_or v (PDict [])) ∅) as [m|e] eqn:Hm;
    [|reflexivity].
  exfalso.
  destruct (add_buckets_names _ _ _ _ Hm k listing arr p name
              Hk Hl Harr Hp Hname Ht) as [s Hs].
  exact (Hns s Hs).
Qed.

Lemma malformed_entry_discards_roster_witness :
  In (PDict [("name", PInt 5)]) [PDict [("name", PInt 5)]] /\
  entry_name (PDict [("name", PInt 5)]) = Ok (PInt 5) /\
  fetch_depth_chart_buckets Cases.w_bad_roster Sample.host "BOS" = ∅.
Proof.
  split; [left; reflexivity|]. split; [reflexivity|].
  apply (malformed_entry_discards_roster Cases.w_bad_roster Sample.host "BOS"
           (Response 200 (Ok Cases.bad_depth_chart)) Cases.bad_depth_chart
           (PDict [("PG", PList [PStr "Jrue Holiday"]);
                   ("SG", PList [PDict [("name", PInt 5)]])])
           (PList [PDict [("name", PInt 5)]]) (PInt 5)
           (PDict [("name", PInt 5)]) "SG" [PDict [("name", PInt 5)]]).
  - reflexivity.
  - reflexivity.
  - reflexivity.
  - simpl. auto.
  - reflexivity.
  - reflexivity.
  - left. reflexivity.
  - reflexivity.
  - reflexivity.
  - intros s. discriminate.
Defined.

(** ** More on the season and on [main] *)

Lemma compute_for_season_shape w a team year r :
  compute_for_season w a team year = Ok r ->
  s_label r = season_label_from_year year /\
  0 <= processed_l r <= 50 /\
  five_keys (totals_l r) /\ five_keys (per_game_l r).
Proof.
  intros H. split; [eapply compute_for_season_label, H|].
  unfold compute_for_season in H. bind_ok H ids Hids.
  pose proof (season_of_gids_processed _ _ _ _ _ _ H) as Hp.
  pose proof (kept_gids_length (a_games a) ids) as Hlen.
  split; [lia|].
  unfold season_of_gids in H. bind_ok H st Hst. bind_ok H pg Hpg.
  injection H as <-. cbn [totals_l per_game_l]. split.
  - eapply games_loop_five_keys; [|exact Hst]. apply zero_buckets_five_keys.
  - unfold five_keys. rewrite (per_game_of_dom _ _ _ _ _ Hpg).
    rewrite dom_empty_L, union_empty_l_L. reflexivity.
Qed.

(** X15. Whatever [main] prints when it returns is well formed.  A failure
    object is printed exactly for a team the table does not hold, without
    any season computation.  A success object carries the team in upper
    case and the requested metric, the label of the requested season or
    of the season before it, a sample size between 0 and 50, and averages
    and totals keyed by the five buckets. *)
Theorem main_output_well_formed (w : world) (a : args) (out : output) :
  snd (main w a) = Ok out ->
  match out with
  | Failure error =>
      ABBR_TO_TEAM_ID !! py_upper (a_team a) = None /\
      fst (main w a) = [] /\
      error = "Unknown team: " +:+ py_upper (a_team a)
  | Success team season metric sample_games perGame totals =>
      is_Some (ABBR_TO_TEAM_ID !! py_upper (a_team a)) /\
      team = py_upper (a_team a) /\ metric = a_metric a /\
      (season = season_label_from_year (a_season a) \/
       season = season_label_from_year (a_season a - 1)) /\
      0 <= sample_games <= 50 /\
      five_keys perGame /\ five_keys totals
  end.
Proof.
  unfold main.
  destruct (ABBR_TO_TEAM_ID !! py_upper (a_team a)) as [team_id|] eqn:Hteam.
  2: { simpl. intros [= <-]. auto. }
  pose proof (team_ids_nonzero _ _ Hteam) as Hid.
  apply Z.eqb_neq in Hid. rewrite Hid.
  destruct (compute_for_season w a team_id (a_season a)) as [r1|e1] eqn:E1;
    [|discriminate].
  destruct (compute_for_season_shape _ _ _ _ _ E1) as (_ & Hp1 & Ht1 & Hg1).
  destruct (processed_l r1 =? 0)%Z.
  - destruct (compute_for_season w a team_id (a_season a - 1))
      as [r2|e2] eqn:E2; [|discriminate].
    destruct (compute_for_season_shape _ _ _ _ _ E2) as (Hl2 & Hp2 & Ht2 & Hg2).
    cbn [snd]. destruct (processed_l r2 >? 0)%Z; intros [= <-].
    + repeat split; eauto; lia.
    + repeat split; eauto; lia.
  - cbn [snd]. intros [= <-]. repeat split; eauto; lia.
Qed.

Lemma main_output_well_formed_witness :
  exists pg tot,
    snd (main Sample.w Sample.a) = Ok (Success "MIL" "2024-25" "pts" 1 pg tot) /\
    five_keys pg /\ five_keys tot.
Proof.
  destruct (snd (main Sample.w Sample.a)) as [out|e] eqn:E.
  2: { exfalso. vm_compute in E. discriminate E. }
  pose proof (main_output_well_formed Sample.w Sample.a out E) as H.
  destruct out as [msg|team season metric n pg tot].
  { exfalso. vm_compute in E. discriminate E. }
  exists pg, tot. destruct H as (_ & _ & _ & _ & _ & Hpg & Htot).
  split; [|split; assumption].
  assert (Hn : match snd (main Sample.w Sample.a) with
               | Ok (Success t s m k _ _) => (t, s, m, k)
               | _ => ("", "", "", 0)
               end = ("MIL", "2024-25", "pts", 1)) by (vm_compute; reflexivity).
  rewrite E in Hn. injection Hn as -> -> -> ->. reflexivity.
Defined.

(** ** The static tables *)

Lemma foldl_insert_lookup_swapped (items : list (string * Z)) (id : Z)
    (abbr : string) :
  forall m : gmap Z string,
  foldl (fun m kv => <[snd kv := fst kv]> m) m items !! id = Some abbr ->
  In (abbr, id) items \/ m !! id = Some abbr.
Proof.
  induction items as [|[k0 v0] items IH]; intros m H; simpl in H.
  - right. exact H.
  - apply IH in H. destruct H as [H|H]; [left; right; exact H|].
    destruct (decide (v0 = id)) as [->|Hne].
    + rewrite lookup_insert_eq in H. injection H as ->.
      left. left. reflexivity.
    + rewrite lookup_insert_ne in H by exact Hne. right. exact H.
Qed.

Lemma team_items_in_tables :
  Forall (fun kv => ABBR_TO_TEAM_ID !! fst kv = Some (snd kv) /\
                    TEAM_ID_TO_ABBR !! snd kv = Some (fst kv) /\
                    fst kv <> "")
         ABBR_TO_TEAM_ID_items.
Proof.
  unfold ABBR_TO_TEAM_ID_items.
  repeat (apply Forall_cons_2;
          [split; [vm_compute; reflexivity|];
           split; [vm_compute; reflexivity|discriminate]|]).
  apply Forall_nil_2.
Qed.

(** X17. The two static tables are inverse to each other: an abbreviation
    has an identifier in [ABBR_TO_TEAM_ID] exactly when the identifier has
    that abbreviation in [TEAM_ID_TO_ABBR]. *)
Theorem team_tables_inverse (abbr : string) (id : Z) :
  ABBR_TO_TEAM_ID !! abbr = Some id <-> TEAM_ID_TO_ABBR !! id = Some abbr.
Proof.
  pose proof team_items_in_tables as Hall. rewrite Forall_forall in Hall.
  split; intros H.
  - apply foldl_insert_lookup in H. destruct H as [H|H];
      [|rewrite lookup_empty in H; discriminate].
    apply list_elem_of_In in H. apply (Hall _ H).
  - apply foldl_insert_lookup_swapped in H. destruct H as [H|H];
      [|rewrite lookup_empty in H; discriminate].
    apply list_elem_of_In in H. apply (Hall _ H).
Qed.

(** X18. For an opponent of the static table the abbreviation is the
    table's and is not empty; the abbreviation cell of the row is not
    read, so a row without that cell still names its team. *)
Theorem known_opponent_abbr_from_table (cols : columns)
    (opp_row : list cell) (opp_id : Z) (abbr : string) :
  TEAM_ID_TO_ABBR !! opp_id = Some abbr ->
  opponent_abbr cols opp_row opp_id = Ok abbr /\ abbr <> "".
Proof.
  intros H. pose proof team_items_in_tables as Hall.
  rewrite Forall_forall in Hall.
  pose proof H as H'. apply foldl_insert_lookup_swapped in H'.
  destruct H' as [H'|H']; [|rewrite lookup_empty in H'; discriminate].
  apply list_elem_of_In in H'. destruct (Hall _ H') as (_ & _ & Hne).
  simpl in Hne. split; [|exact Hne].
  unfold opponent_abbr. rewrite H.
  apply String.eqb_neq in Hne. rewrite Hne. reflexivity.
Qed.

Lemma known_opponent_abbr_from_table_witness :
  TEAM_ID_TO_ABBR !! Sample.BOS = Some "BOS" /\
  row_text [CInt Sample.BOS] 1 = Raise IndexError /\
  opponent_abbr (resolve_columns Sample.headers) [CInt Sample.BOS] Sample.BOS
  = Ok "BOS".
Proof.
  assert (H : TEAM_ID_TO_ABBR !! Sample.BOS = Some "BOS")
    by (vm_compute; reflexivity).
  split; [exact H|]. split; [vm_compute; reflexivity|].
  exact (proj1 (known_opponent_abbr_from_table
                  (resolve_columns Sample.headers) [CInt Sample.BOS]
                  Sample.BOS "BOS" H)).
Defined.

(** ** The season label *)

Lemma two_digits (m : Z) :
  0 <= m < 100 ->
  zfill 2 (str_of_Z m)
  = String (digit_char (m / 10)) (String (digit_char (m mod 10)) "").
Proof.
  intros Hm.
  assert (Hall : forallb
            (fun n => String.eqb
                        (zfill 2 (str_of_Z (Z.of_nat n)))
                        (String (digit_char (Z.of_nat n / 10))
                           (String (digit_char (Z.of_nat n mod 10)) "")))
            (seq 0 100) = true) by (vm_compute; reflexivity).
  rewrite forallb_forall in Hall.
  specialize (Hall (Z.to_nat m)). rewrite Z2Nat.id in Hall by lia.
  apply String.eqb_eq, Hall, in_seq. lia.
Qed.

(** X19. A season label is the start year, a dash and exactly two decimal
    digits, those of the next year modulo 100; a year that ends in 99 is
    followed by "00". *)
Theorem season_label_format (y : Z) :
  let m := (y + 1) mod 100 in
  season_label_from_year y
  = str_of_Z y +:+ "-" +:+
    String (digit_char (m / 10)) (String (digit_char (m mod 10)) "") /\
  0 <= m / 10 <= 9 /\ 0 <= m mod 10 <= 9 /\
  (y mod 100 = 99 -> season_label_from_year y = str_of_Z y +:+ "-00").
Proof.
  intros m. assert (Hm : 0 <= m < 100) by (apply Z.mod_pos_bound; lia).
  unfold season_label_from_year. fold m. rewrite (two_digits m Hm).
  split; [reflexivity|].
  split; [split; [apply Z.div_pos; lia|
                  apply Z.lt_succ_r, Z.div_lt_upper_bound; lia]|].
  split; [pose proof (Z.mod_pos_bound m 10); lia|].
  intros H99. assert (E : m = 0).
  { subst m. rewrite <- Zplus_mod_idemp_l, H99. reflexivity. }
  rewrite E. reflexivity.
Qed.

Lemma season_label_format_witness :
  1999 mod 100 = 99 /\ season_label_from_year 1999 = "1999-00".
Proof.
  split; [reflexivity|].
  destruct (season_label_format 1999) as (_ & _ & _ & H).
  rewrite H by reflexivity. vm_compute. reflexivity.
Defined.

(** ** Where a season can raise *)




